(** * ThatTube: the raw-video transform engine and its orchestration

    A shallow embedding of [src/videoProcessing.js] (duration estimation,
    frame-aligned trimming, byte-exact merging) and of the Express routes
    that tie those transforms to the [videos] and [share_links] tables.

    Modelling conventions.
    - JavaScript numbers are IEEE-754 doubles.  Whole numbers (byte sizes,
      frame counts, row ids, clock readings in milliseconds) are integers
      ([Z]); they stay below [2^53], where doubles are exact.  Durations are
      rationals ([Q]): an estimate is the quotient of its two whole numbers,
      a reported duration the difference or sum of its operands, and the
      comparisons of the code are made on these.  The frame numbers of a
      trim are what [Math.floor] yields on doubles: every operand,
      difference and product on the way is rounded to the nearest double
      ([to_double]), so that thirty times the double nearest to [4.1] is
      floored to 122, as it is by the code.
    - The filesystem is a finite map from path strings to byte contents.
    - A thrown JavaScript exception is the [Throw] case of [Completion].
    - [Date.now()], [new Date()] and [Math.random()] are read by the caller
      and passed in as arguments. *)

From Stdlib Require Import ZArith QArith Qround Qabs Qpower Lia Lqa String Ascii DecimalString.
From Stdlib Require Import Strings.Byte.
From stdpp Require Import gmap strings list fin_maps.

Open Scope string_scope.
Open Scope list_scope.
Open Scope Z_scope.

(** ** Exceptions *)

(** A JavaScript [Error] object: its [message], and the [code] property that
    Node attaches to system and range errors. *)
Record JsError := { code : option string; message : string }.

Definition Error (msg : string) : JsError := {| code := None; message := msg |}.

Inductive Completion (A : Type) : Type :=
| Return (a : A)
| Throw (e : JsError).
Arguments Return {A} a.
Arguments Throw {A} e.

Definition bind {A B : Type} (c : Completion A) (k : A -> Completion B) : Completion B :=
  match c with
  | Return a => k a
  | Throw e => Throw e
  end.

Notation "'let!' x ':=' c 'in' k" := (bind c (fun x => k))
  (at level 10, x pattern, c at level 100, k at level 200).

(** [try { body } catch (error) { throw new Error(prefix + error.message) }] *)
Definition rethrow {A : Type} (pre : string) (c : Completion A) : Completion A :=
  match c with
  | Return a => Return a
  | Throw e => Throw (Error (pre +:+ message e))
  end.

(** ** Strings and template literals *)

(** [`${n}`] for an integer-valued number. *)
Definition show (n : Z) : string := NilZero.string_of_int (Z.to_int n).

Definition startsWith (s pre : string) : bool := String.prefix pre s.

Fixpoint endsWith (s suf : string) : bool :=
  String.eqb s suf ||
  match s with
  | EmptyString => false
  | String _ r => endsWith r suf
  end.

(** ** Node's [path] module (POSIX flavour)

    Clip paths name regular files inside a normalised directory: no trailing
    separator and no [.] or [..] segment. *)
Module path.

Definition sep : ascii := "/"%char.
Definition dot : ascii := "."%char.

Fixpoint has_sep (s : string) : bool :=
  match s with
  | EmptyString => false
  | String c r => Ascii.eqb c sep || has_sep r
  end.

(** [path.basename(p)]: what follows the last separator. *)
Fixpoint basename (p : string) : string :=
  match p with
  | EmptyString => EmptyString
  | String c r =>
      if has_sep r then basename r
      else if Ascii.eqb c sep then r else p
  end.

(** What precedes the last separator. *)
Fixpoint dir_part (p : string) : string :=
  match p with
  | EmptyString => EmptyString
  | String c r => if has_sep r then String c (dir_part r) else EmptyString
  end.

(** [path.dirname(p)] *)
Definition dirname (p : string) : string :=
  if has_sep p then
    match dir_part p with
    | EmptyString => "/"
    | d => d
    end
  else ".".

(** The suffix of [s] that starts at its last dot. *)
Fixpoint last_dot_suffix (s : string) : option string :=
  match s with
  | EmptyString => None
  | String c r =>
      match last_dot_suffix r with
      | Some e => Some e
      | None => if Ascii.eqb c dot then Some s else None
      end
  end.

(** [path.extname(p)]: from the last dot of the basename, unless that dot
    is the basename's first character or the basename is [..]. *)
Definition ext_of (name : string) : string :=
  match name with
  | EmptyString => EmptyString
  | String c r =>
      if String.eqb name ".." then EmptyString
      else match last_dot_suffix r with
           | Some e => e
           | None => EmptyString
           end
  end.

Definition extname (p : string) : string := ext_of (basename p).

(** Removes the trailing [ext] of [s], if [s] ends with it. *)
Fixpoint strip_suffix (ext s : string) : string :=
  if String.eqb s ext then EmptyString
  else match s with
       | EmptyString => EmptyString
       | String c r => String c (strip_suffix ext r)
       end.

(** [path.basename(p, ext)], for an [ext] that is not the whole basename
    (the only use is with [ext = extname p], which never is). *)
Definition basename_ext (p ext : string) : string :=
  strip_suffix ext (basename p).

(** [path.join(dir, file)] for a normalised [dir] and a plain file name. *)
Definition join (dir file : string) : string :=
  if String.eqb dir "." then file
  else if String.eqb dir "/" then "/" +:+ file
  else dir +:+ "/" +:+ file.

End path.

(** ** Doubles

    A finite double is a rational [m * 2^t] with [|m| < 2^53] and
    [-1074 <= t]; magnitudes of [2^1024] and more, which a double cannot
    hold, do not occur in what follows (a frame number of that size asks for
    a buffer beyond any memory). *)

(** The position of the leading bit of a non-zero [x]: the [e] with
    [2^e <= |x| < 2^(e+1)]. *)
Definition Qlog2 (x : Q) : Z :=
  let e := Z.log2 (Z.abs (Qnum x)) - Z.log2 (Zpos (Qden x)) in
  if Qle_bool (2 ^ e) (Qabs x) then e else e - 1.

(** The integer nearest to [x]; of two equally near, the even one. *)
Definition round_half_even (x : Q) : Z :=
  let f := Qfloor x in
  match (x - inject_Z f ?= 1 # 2)%Q with
  | Lt => f
  | Gt => f + 1
  | Eq => if Z.even f then f else f + 1
  end.

(** The double nearest to [x] (round to nearest, ties to even): [x] is
    rounded to a whole multiple of [2^t], where [t] leaves 53 bits to a
    normal number and is [-1074] for a subnormal one. *)
Definition to_double (x : Q) : Q :=
  if Qeq_bool x 0 then 0%Q
  else
    let t := Z.max (Qlog2 x - 52) (-1074) in
    Qred (inject_Z (round_half_even (x / 2 ^ t)) * 2 ^ t).

(** [a - b] and [a * b] on numbers: the operands are doubles, and so is the
    result. *)
Definition double_sub (a b : Q) : Q := to_double (to_double a - to_double b).

Definition double_mul (a b : Q) : Q := to_double (to_double a * to_double b).

(** ** Node's [fs] module *)

Abbreviation FS := (gmap string (list byte)).

Definition ENOENT (syscall p : string) : JsError :=
  {| code := Some "ENOENT";
     message := "ENOENT: no such file or directory, " +:+ syscall +:+ " '" +:+ p +:+ "'" |}.

Module fs.

Definition existsSync (st : FS) (p : string) : bool :=
  match st !! p with Some _ => true | None => false end.

(** [fs.statSync(p).size] *)
Definition statSync_size (st : FS) (p : string) : Completion Z :=
  match st !! p with
  | Some content => Return (Z.of_nat (length content))
  | None => Throw (ENOENT "stat" p)
  end.

Definition readFileSync (st : FS) (p : string) : Completion (list byte) :=
  match st !! p with
  | Some content => Return content
  | None => Throw (ENOENT "open" p)
  end.

(** [fs.writeFileSync(p, buffer)]: creates or replaces the file. *)
Definition writeFileSync (st : FS) (p : string) (data : list byte) : FS :=
  <[p := data]> st.

Definition unlinkSync (st : FS) (p : string) : Completion FS :=
  match st !! p with
  | Some _ => Return (delete p st)
  | None => Throw (ENOENT "unlink" p)
  end.

End fs.

(** ** Node's [Buffer] *)

Definition dquote : string := String (ascii_of_nat 34) EmptyString.

(** Node's [addNumericalSeparator], on the characters of a number from the
    last to the first: an underscore after every three digits that have
    more digits before them. *)
Fixpoint separate_thousands (rev_digits : list ascii) : list ascii :=
  match rev_digits with
  | a :: b :: c :: ((_ :: _) as more) =>
      a :: b :: c :: "_"%char :: separate_thousands more
  | _ => rev_digits
  end.

Definition addNumericalSeparator (n : Z) : string :=
  let digits := list_ascii_of_string (show (Z.abs n)) in
  (if n <? 0 then "-" else EmptyString)
  +:+ string_of_list_ascii (rev (separate_thousands (rev digits))).

(** How the message of a range error prints the whole number it received:
    with separators beyond [2^32]. *)
Definition received (n : Z) : string :=
  if 2 ^ 32 <? Z.abs n then addNumericalSeparator n else show n.

(** [new ERR_OUT_OF_RANGE(name, range, input)] *)
Definition ERR_OUT_OF_RANGE (name range : string) (input : Z) : JsError :=
  {| code := Some "ERR_OUT_OF_RANGE";
     message := "The value of " +:+ dquote +:+ name +:+ dquote
                +:+ " is out of range. It must be " +:+ range
                +:+ ". Received " +:+ received input |}.

(** [buffer.kMaxLength] of Node 22. *)
Definition kMaxLength : Z := 2 ^ 53 - 1.

Module Buffer.

Definition len (b : list byte) : Z := Z.of_nat (length b).

(** [Buffer.alloc(size)]: a zero-filled buffer. *)
Definition alloc (size : Z) : Completion (list byte) :=
  if size <? 0
  then Throw (ERR_OUT_OF_RANGE "size" (">= 0 && <= " +:+ show kMaxLength) size)
  else Return (replicate (Z.to_nat size) x00).

(** Overwrites [target] from offset [off] with [data]; the caller makes
    sure [data] fits. *)
Definition blit (target : list byte) (off : Z) (data : list byte) : list byte :=
  take (Z.to_nat off) target ++ data
    ++ drop (Z.to_nat off + length data)%nat target.

(** [source.copy(target, targetStart, sourceStart, sourceEnd)], with the
    contents of [target] afterwards as the result.  An omitted argument
    is [None].  Node rejects a negative offset and a [sourceStart] beyond
    the end of [source]; a [sourceEnd] beyond it is clamped, as is a range
    longer than the room left in [target]. *)
Definition copy (source target : list byte)
    (targetStart sourceStart sourceEnd : option Z) : Completion (list byte) :=
  let targetStart := default 0 targetStart in
  if targetStart <? 0
  then Throw (ERR_OUT_OF_RANGE "targetStart" ">= 0" targetStart) else
  let sourceStart := default 0 sourceStart in
  if (sourceStart <? 0) || (len source <? sourceStart)
  then Throw (ERR_OUT_OF_RANGE "sourceStart"
                (">= 0 && <= " +:+ show (len source)) sourceStart) else
  let sourceEnd := default (len source) sourceEnd in
  if sourceEnd <? 0
  then Throw (ERR_OUT_OF_RANGE "sourceEnd" ">= 0" sourceEnd) else
  if (len target <=? targetStart) || (sourceEnd <=? sourceStart)
  then Return target else
  let sourceEnd :=
    if len target - targetStart <? sourceEnd - sourceStart
    then sourceStart + len target - targetStart else sourceEnd in
  let nb := Z.min (sourceEnd - sourceStart) (len source - sourceStart) in
  Return (blit target targetStart
            (take (Z.to_nat nb) (drop (Z.to_nat sourceStart) source))).

End Buffer.

(** ** [videoProcessing.js] *)

(** Constants for raw video format *)
Definition RAW_VIDEO_WIDTH : Z := 320.
Definition RAW_VIDEO_HEIGHT : Z := 240.
Definition RAW_VIDEO_FPS : Z := 30.
Definition BYTES_PER_PIXEL : Z := 3.
Definition FRAME_SIZE : Z := RAW_VIDEO_WIDTH * RAW_VIDEO_HEIGHT * BYTES_PER_PIXEL.

(** Test video durations *)
Definition TEST_VIDEO_DURATION : Q := 5.
Definition LONG_VIDEO_DURATION : Q := 360.

(** [Math.floor(a / b)] for whole numbers [a] and [b]. *)
Definition floor_div (a b : Z) : Z := Qfloor (inject_Z a / inject_Z b).

Definition calculateRawVideoDuration (st : FS) (filepath : string) : Completion Q :=
  let filename := path.basename filepath in
  if startsWith filename "test-video" then Return TEST_VIDEO_DURATION
  else if startsWith filename "long-video" then Return LONG_VIDEO_DURATION
  else
    let! fileSize := fs.statSync_size st filepath in
    let totalFrames := floor_div fileSize FRAME_SIZE in
    Return (inject_Z totalFrames / inject_Z RAW_VIDEO_FPS)%Q.

(** ** Trimming *)

Record TrimOptions := { trimStart : option Q; trimEnd : option Q }.

(** What a transform resolves to: [{ outputPath, duration }]. *)
Record TransformResult := { outputPath : string; duration : Q }.

(** Truthiness of an optional number: present and not zero. *)
Definition truthy (x : option Q) : bool :=
  match x with
  | Some q => negb (Qeq_bool q 0)
  | None => false
  end.

(** [x || 0] *)
Definition or_zero (x : option Q) : Q :=
  match x with
  | Some q => if Qeq_bool q 0 then 0%Q else q
  | None => 0%Q
  end.

(** The fluent-ffmpeg command that the non-raw branch builds. *)
Record FfmpegCommand := {
  ff_input : string;
  ff_startTime : option Q;
  ff_duration : option Q;
  ff_output : string
}.

(** Outcome of the synchronous part of [processVideo]: the raw branch has
    written its file, the other branch has a transcoder run pending. *)
Inductive TrimStep :=
| Written (st : FS) (r : TransformResult)
| Delegated (cmd : FfmpegCommand) (r : TransformResult).

(** [Math.floor(trimStart * RAW_VIDEO_FPS)] *)
Definition startFrameOf (trimStart : Q) : Z :=
  Qfloor (double_mul trimStart (inject_Z RAW_VIDEO_FPS)).

(** [Math.floor((totalDuration - trimEnd) * RAW_VIDEO_FPS)] *)
Definition endFrameOf (totalDuration trimEnd : Q) : Z :=
  Qfloor (double_mul (double_sub totalDuration trimEnd) (inject_Z RAW_VIDEO_FPS)).

Definition trimmedPath (inputPath : string) (timestamp : Z) : string :=
  let dir := path.dirname inputPath in
  let ext := path.extname inputPath in
  let basename := path.basename_ext inputPath ext in
  path.join dir (basename +:+ "-trimmed-" +:+ show timestamp +:+ ext).

(** The body of the [try] block of [processVideo]; [now] is [Date.now()]. *)
Definition processVideo_try (st : FS) (now : Z) (inputPath : string)
    (options : TrimOptions) : Completion TrimStep :=
  let outputPath := trimmedPath inputPath now in
  let isRawVideo := endsWith inputPath ".raw" in
  let! totalDuration := calculateRawVideoDuration st inputPath in
  let trimStart := or_zero (trimStart options) in
  let trimEnd := or_zero (trimEnd options) in
  let newDuration := (totalDuration - trimStart - trimEnd)%Q in
  if Qle_bool newDuration 0 then
    Throw (Error "Invalid trim parameters: resulting video would be empty")
  else if isRawVideo then
    let frameSize := RAW_VIDEO_WIDTH * RAW_VIDEO_HEIGHT * BYTES_PER_PIXEL in
    let startFrame := startFrameOf trimStart in
    let endFrame := endFrameOf totalDuration trimEnd in
    let! inputBuffer := fs.readFileSync st inputPath in
    let outputSize := (endFrame - startFrame) * frameSize in
    let! outputBuffer := Buffer.alloc outputSize in
    let! outputBuffer :=
      Buffer.copy inputBuffer outputBuffer
        (Some 0) (Some (startFrame * frameSize)) (Some (endFrame * frameSize)) in
    Return (Written (fs.writeFileSync st outputPath outputBuffer)
              {| outputPath := outputPath; duration := newDuration |})
  else
    Return (Delegated
              {| ff_input := inputPath;
                 ff_startTime :=
                   if negb (Qeq_bool trimStart 0) then Some trimStart else None;
                 ff_duration :=
                   if negb (Qeq_bool trimEnd 0) then Some newDuration else None;
                 ff_output := outputPath |}
              {| outputPath := outputPath; duration := newDuration |}).

(** ** Merging *)

(** [path.dirname(undefined)] *)
Definition ERR_INVALID_ARG_TYPE (name : string) : JsError :=
  {| code := Some "ERR_INVALID_ARG_TYPE";
     message := "The " +:+ dquote +:+ name +:+ dquote
                +:+ " argument must be of type string. Received undefined" |}.

(** First pass: calculate total duration and size. *)
Fixpoint merge_first_pass (st : FS) (inputPaths : list string)
    (totalDuration : Q) (totalSize : Z) : Completion (Q * Z) :=
  match inputPaths with
  | [] => Return (totalDuration, totalSize)
  | inputPath :: rest =>
      let! duration := calculateRawVideoDuration st inputPath in
      let totalDuration := (totalDuration + duration)%Q in
      let! size := fs.statSync_size st inputPath in
      merge_first_pass st rest totalDuration (totalSize + size)
  end.

(** Second pass: copy data. *)
Fixpoint merge_second_pass (st : FS) (inputPaths : list string)
    (outputBuffer : list byte) (offset : Z) : Completion (list byte * Z) :=
  match inputPaths with
  | [] => Return (outputBuffer, offset)
  | inputPath :: rest =>
      let! inputBuffer := fs.readFileSync st inputPath in
      let! outputBuffer :=
        Buffer.copy inputBuffer outputBuffer (Some offset) None None in
      merge_second_pass st rest outputBuffer (offset + Buffer.len inputBuffer)
  end.

Definition mergedPath (first : string) (timestamp : Z) : string :=
  path.join (path.dirname first) ("merged-" +:+ show timestamp +:+ ".raw").

Definition mergeVideos (st : FS) (now : Z) (inputPaths : list string)
    : Completion (FS * TransformResult) :=
  rethrow "Error merging videos: " (
    let! first :=
      match inputPaths with
      | p :: _ => Return p
      | [] => Throw (ERR_INVALID_ARG_TYPE "path")
      end in
    let outputPath := mergedPath first now in
    let! totals := merge_first_pass st inputPaths 0%Q 0 in
    let totalDuration := fst totals in
    let totalSize := snd totals in
    let! outputBuffer := Buffer.alloc totalSize in
    let! copied := merge_second_pass st inputPaths outputBuffer 0 in
    let outputBuffer := fst copied in
    Return (fs.writeFileSync st outputPath outputBuffer,
            {| outputPath := outputPath; duration := totalDuration |})).

(** ** The catalog *)

(** Modelled from the spec: the catalog store ([./db], whose schema is not
    part of the sources).  Rows of [videos] are [id, filename, filepath,
    size, duration], rows of [share_links] are [video_id, token,
    expiry_timestamp]; the store offers point lookup by id or token and
    single-row insert with an auto-assigned identity.  Tables are kept in
    insertion order, and an insert is given the successor of the largest
    id in use.  [expiry_timestamp] holds an ISO-8601 instant with
    millisecond precision; it is kept as milliseconds since the epoch. *)
Record Video := {
  v_id : Z;
  v_filename : string;
  v_filepath : string;
  v_size : Z;
  v_duration : Q
}.

Record ShareLink := {
  video_id : Z;
  token : string;
  expiry_timestamp : Z
}.

Record Db := { videos : list Video; share_links : list ShareLink }.

(** [SELECT * FROM videos WHERE id = ?] with [.get(id)] *)
Definition get_video (db : Db) (id : Z) : option Video :=
  List.find (fun v => v_id v =? id) (videos db).

Definition next_rowid (rows : list Video) : Z :=
  1 + fold_right Z.max 0 (map v_id rows).

(** [INSERT INTO videos (filename, filepath, size, duration) VALUES (?, ?, ?, ?)];
    the second component is [lastInsertRowid]. *)
Definition insert_video (db : Db) (filename filepath : string) (size : Z)
    (duration : Q) : Db * Z :=
  let id := next_rowid (videos db) in
  ({| videos := videos db ++
                  [ {| v_id := id; v_filename := filename; v_filepath := filepath;
                       v_size := size; v_duration := duration |} ];
      share_links := share_links db |}, id).

(** [INSERT INTO share_links (video_id, token, expiry_timestamp) VALUES (?, ?, ?)] *)
Definition insert_share_link (db : Db) (videoId : Z) (tok : string)
    (expiry : Z) : Db :=
  {| videos := videos db;
     share_links := share_links db ++
                      [ {| video_id := videoId; token := tok;
                           expiry_timestamp := expiry |} ] |}.

(** SQLite's [datetime(t)] renders an instant as [YYYY-MM-DD HH:MM:SS]: the
    fraction of the second is dropped.  Two such texts compare as the whole
    seconds they denote. *)
Definition datetime (ms : Z) : Z := ms / 1000.

(** [share_links JOIN videos ON videos.id = share_links.video_id] *)
Definition share_join (db : Db) : list (ShareLink * Video) :=
  flat_map
    (fun l => map (pair l) (List.filter (fun v => v_id v =? video_id l) (videos db)))
    (share_links db).

(** [... WHERE token = ? AND datetime(expiry_timestamp) > datetime('now')]
    with [.get(token)]; [now] is the clock at the time of the query. *)
Definition select_share (db : Db) (now : Z) (tok : string)
    : option (ShareLink * Video) :=
  List.find
    (fun lv => String.eqb (token (fst lv)) tok
               && (datetime now <? datetime (expiry_timestamp (fst lv))))
    (share_join db).

(** ** HTTP responses *)

Inductive Body :=
| JsonError (error : string)
| JsonVideo (id : Z) (filename : string) (duration : Q)
| JsonShare (shareUrl : string) (expiryTimestamp : Z)
| FileStream (contentType attachment filepath : string).

Record Response := { status : Z; body : Body }.

(** [res.status(s).json(b)] *)
Definition reply (s : Z) (b : Body) : Response := {| status := s; body := b |}.

(** [res.json(b)] *)
Definition ok (b : Body) : Response := reply 200 b.

Definition Q_ltb (a b : Q) : bool := negb (Qle_bool b a).

(** ** Routes *)

(** [req.file] as multer leaves it. *)
Record UploadedFile := { file_path : string; file_filename : string }.

(** [POST /upload] *)
Definition post_upload (st : FS) (db : Db) (file : option UploadedFile)
    : FS * Db * Response :=
  match file with
  | None => (st, db, reply 400 (JsonError "No video file provided"))
  | Some f =>
      let filepath := file_path f in
      let filename := file_filename f in
      let internal := reply 500 (JsonError "Internal server error") in
      match fs.statSync_size st filepath with
      | Throw _ => (st, db, internal)
      | Return filesize =>
          match calculateRawVideoDuration st filepath with
          | Throw _ => (st, db, internal)
          | Return duration =>
              if Q_ltb 300 duration then
                match fs.unlinkSync st filepath with
                | Throw _ => (st, db, internal)
                | Return st' =>
                    (st', db,
                     reply 400 (JsonError
                       "Video duration exceeds maximum allowed length (5 minutes)"))
                end
              else
                let (db', id) := insert_video db filename filepath filesize duration in
                (st, db', ok (JsonVideo id filename duration))
          end
      end
  end.

(** [trimStart && trimStart < 0] *)
Definition negative (x : option Q) : bool :=
  truthy x && match x with Some q => Q_ltb q 0 | None => false end.

Section Transcoder.

(** The external transcoder: [ffmpeg_run st cmd] runs [cmd] to its single
    completion signal, [inr] the filesystem after the ['end'] event or
    [inl err.message] after the ['error'] event (taken to leave no file
    behind). *)
Variable ffmpeg_run : FS -> FfmpegCommand -> string + FS.

(** The promise made in the non-raw branch is returned, not awaited, so
    its rejection does not pass through the [catch] clause. *)
Definition processVideo (st : FS) (now : Z) (inputPath : string)
    (options : TrimOptions) : Completion (FS * TransformResult) :=
  match rethrow "Error processing video: "
          (processVideo_try st now inputPath options) with
  | Throw e => Throw e
  | Return (Written st' r) => Return (st', r)
  | Return (Delegated cmd r) =>
      match ffmpeg_run st cmd with
      | inr st' => Return (st', r)
      | inl msg => Throw (Error ("Error processing video: " +:+ msg))
      end
  end.

(** [POST /videos/:id/trim] *)
Definition post_trim (st : FS) (db : Db) (now : Z) (videoId : Z)
    (trimStart trimEnd : option Q) : FS * Db * Response :=
  if negb (truthy trimStart) && negb (truthy trimEnd) then
    (st, db, reply 400 (JsonError "Must specify either trimStart or trimEnd"))
  else if negative trimStart || negative trimEnd then
    (st, db, reply 400 (JsonError "Trim values must be positive"))
  else
    match get_video db videoId with
    | None => (st, db, reply 404 (JsonError "Video not found"))
    | Some video =>
        match processVideo st now (v_filepath video)
                {| trimStart := trimStart; trimEnd := trimEnd |} with
        | Throw e => (st, db, reply 500 (JsonError (message e)))
        | Return (st', result) =>
            match fs.statSync_size st' (outputPath result) with
            | Throw e => (st', db, reply 500 (JsonError (message e)))
            | Return size =>
                let (db', id) :=
                  insert_video db (path.basename (outputPath result))
                    (outputPath result) size (duration result) in
                (st', db',
                 ok (JsonVideo id (path.basename (outputPath result))
                       (duration result)))
            end
        end
    end.

End Transcoder.

(** The lookup loop of [POST /videos/merge]: the rows of [videoIds] in
    order, or the first id that has no row. *)
Fixpoint lookup_videos (db : Db) (videoIds : list Z) (found : list Video)
    : Z + list Video :=
  match videoIds with
  | [] => inr found
  | id :: rest =>
      match get_video db id with
      | None => inl id
      | Some video => lookup_videos db rest (found ++ [video])
      end
  end.

(** [POST /videos/merge]; [videoIds] is [None] when the body has no array
    under that name. *)
Definition post_merge (st : FS) (db : Db) (now : Z) (videoIds : option (list Z))
    : FS * Db * Response :=
  match videoIds with
  | None => (st, db, reply 400 (JsonError "Must provide an array of video IDs"))
  | Some videoIds =>
      if Z.of_nat (length videoIds) <? 2 then
        (st, db, reply 400 (JsonError "Must provide at least two video IDs to merge"))
      else
        match lookup_videos db videoIds [] with
        | inl id =>
            (st, db,
             reply 404 (JsonError ("Video with ID " +:+ show id +:+ " not found")))
        | inr videos =>
            match mergeVideos st now (map v_filepath videos) with
            | Throw e => (st, db, reply 500 (JsonError (message e)))
            | Return (st', result) =>
                match fs.statSync_size st' (outputPath result) with
                | Throw e => (st', db, reply 500 (JsonError (message e)))
                | Return size =>
                    let (db', id) :=
                      insert_video db (path.basename (outputPath result))
                        (outputPath result) size (duration result) in
                    (st', db',
                     ok (JsonVideo id (path.basename (outputPath result))
                           (duration result)))
                end
            end
        end
  end.

Definition HOUR_MS : Z := 3600000.

(** [POST /videos/:id/share].  [t_token] is the [Date.now()] of the token,
    [t_date] the [new Date()] that is moved [expiryHours] hours ahead (no
    daylight-saving change falls in between), [rnd] is
    [Math.random().toString(36).substring(2)]. *)
Definition post_share (st : FS) (db : Db) (t_token t_date : Z) (rnd : string)
    (videoId : Z) (expiryHours : option Z) : FS * Db * Response :=
  let expiryHours := default 24 expiryHours in
  match get_video db videoId with
  | None => (st, db, reply 404 (JsonError "Video not found"))
  | Some video =>
      let tok := show t_token +:+ "-" +:+ rnd in
      let expiryTimestamp := t_date + expiryHours * HOUR_MS in
      (st, insert_share_link db videoId tok expiryTimestamp,
       ok (JsonShare ("/videos/share/" +:+ tok) expiryTimestamp))
  end.

(** [GET /videos/share/:token]; [now] is the clock when the query runs. *)
Definition get_share (st : FS) (db : Db) (now : Z) (tok : string)
    : FS * Db * Response :=
  match select_share db now tok with
  | None => (st, db, reply 404 (JsonError "Share link not found or expired"))
  | Some (_, video) =>
      (st, db, ok (FileStream "video/raw" (v_filename video) (v_filepath video)))
  end.

(** The sum of a list of durations. *)
Definition Qsum (ds : list Q) : Q := fold_right Qplus 0%Q ds.

(** What the raw branch of a trim writes for the frames [[s, e)] of [input]:
    the bytes [input] has in that range, padded with zeros to the full
    length. *)
Definition trim_bytes (input : list byte) (s e : Z) : list byte :=
  resize (Z.to_nat ((e - s) * FRAME_SIZE)) x00
    (drop (Z.to_nat (s * FRAME_SIZE)) input).

(** A transcoder that always fails. *)
Definition no_ffmpeg (st : FS) (cmd : FfmpegCommand) : string + FS :=
  inl "ffmpeg exited with code 1".

(** ** Sample requests and states *)

Definition upload_long : UploadedFile :=
  {| file_path := "/up/long-video.raw"; file_filename := "long-video.raw" |}.

Definition upload_short : UploadedFile :=
  {| file_path := "/up/17-3.raw"; file_filename := "17-3.raw" |}.

Definition empty_db : Db := {| videos := []; share_links := [] |}.

(** A catalog with one three-byte clip, as [POST /upload] leaves it. *)
Definition one_clip_db : Db :=
  {| videos :=
       [ {| v_id := 1; v_filename := "17-3.raw"; v_filepath := "/up/17-3.raw";
            v_size := 3; v_duration := (0 # 30)%Q |} ];
     share_links := [] |}.

Definition two_clips : FS :=
  <["/up/a.raw" := [x01; x02]]> {[ "/up/b.raw" := [x03] ]}.

Definition fixture_pair : FS :=
  <["/up/test-video-a.raw" := [x01]]> {[ "/up/test-video-b.raw" := [x02] ]}.


Definition fixture_three_bytes : FS :=
  {[ "/up/test-video.raw" := [x01; x02; x03] ]}.

(** Keep the first half second of five seconds, or the first second; cut
    the first second. *)
Definition keep_half_second : TrimOptions :=
  {| trimStart := None; trimEnd := Some (9 # 2)%Q |}.

Definition keep_one_second : TrimOptions :=
  {| trimStart := None; trimEnd := Some 4%Q |}.

Definition cut_first_second : TrimOptions :=
  {| trimStart := Some 1%Q; trimEnd := None |}.

(** The file behind the row of [one_clip_db]. *)
Definition three_byte_clip : FS := {[ "/up/17-3.raw" := [x01; x02; x03] ]}.

(** The catalog of [one_clip_db] with one share link, which expires one and a
    half seconds after the epoch. *)
Definition shared_db : Db :=
  {| videos := videos one_clip_db;
     share_links :=
       [ {| video_id := 1; token := "7-k3x"; expiry_timestamp := 1500 |} ] |}.

(** ** Upload storage *)

(** [limits.fileSize] of the multer instance: 1GB. *)
Definition UPLOAD_LIMIT : Z := 1024 * 1024 * 1024.

(** The [filename] callback of the disk storage; [now] is [Date.now()],
    [rnd] is [Math.round(Math.random() * 1E9)]. *)
Definition storage_filename (now rnd : Z) (originalname : string) : string :=
  show now +:+ "-" +:+ show rnd +:+ path.extname originalname.

(** [req.file] for a file stored in [uploadDir]: multer joins the
    destination and the generated name. *)
Definition stored_file (uploadDir : string) (now rnd : Z) (originalname : string)
    : UploadedFile :=
  {| file_path := path.join uploadDir (storage_filename now rnd originalname);
     file_filename := storage_filename now rnd originalname |}.

(** ** Vocabulary for statements about the catalog *)

(** Every row points at a stored file and records its size. *)
Definition catalog_consistent (st : FS) (db : Db) : Prop :=
  forall v, In v (videos db) ->
    exists content, st !! v_filepath v = Some content
                    /\ v_size v = Buffer.len content.

(** [db'] holds the rows and links of [db], in place, and at most one more
    row or link. *)
Definition grows_by_at_most_one (db db' : Db) : Prop :=
  exists rows links,
    videos db' = videos db ++ rows
    /\ share_links db' = share_links db ++ links
    /\ (length rows + length links <= 1)%nat.

(** The catalog of [two_clips], and one whose second file is not stored. *)
Definition two_clips_db : Db :=
  {| videos :=
       [ {| v_id := 1; v_filename := "a.raw"; v_filepath := "/up/a.raw";
            v_size := 2; v_duration := (0 # 30)%Q |};
         {| v_id := 2; v_filename := "b.raw"; v_filepath := "/up/b.raw";
            v_size := 1; v_duration := (0 # 30)%Q |} ];
     share_links := [] |}.

Definition stale_db : Db :=
  {| videos :=
       [ {| v_id := 1; v_filename := "a.raw"; v_filepath := "/up/a.raw";
            v_size := 2; v_duration := (0 # 30)%Q |};
         {| v_id := 2; v_filename := "gone.raw"; v_filepath := "/up/gone.raw";
            v_size := 1; v_duration := (0 # 30)%Q |} ];
     share_links := [] |}.

(** What every route keeps of the catalog: the tables only grow, by one row
    or link at most, and stay as they were unless the answer is 200. *)
Definition keeps_catalog (db : Db) (res : FS * Db * Response) : Prop :=
  grows_by_at_most_one db (snd (fst res))
  /\ (status (snd res) <> 200 -> snd (fst res) = db).

(** A clip of two frames, the first of bytes [x01] and the second of bytes
    [x02], where it is stored and its row. *)
Definition first_frame : list byte := replicate (Z.to_nat 230400) x01.

Definition second_frame : list byte := replicate (Z.to_nat 230400) x02.

Definition two_frames : list byte := first_frame ++ second_frame.

Definition two_frame_clip : FS := {[ "/up/17-5.raw" := two_frames ]}.


(** Two windows on that clip: a sixteenth of a second off the start, which
    ends inside the second frame, and a thirty-second of a second off the
    end, which begins inside it. *)
Definition cut_first_frame : TrimOptions :=
  {| trimStart := Some (1 # 16)%Q; trimEnd := None |}.


(** A clip of 123 frames, and where it is stored. *)
Definition long_take : list byte := replicate (Z.to_nat (123 * 230400)) x01.

Definition long_take_clip : FS := {[ "/up/17-8.raw" := long_take ]}.


(** * Properties *)

(** ** Duration estimation *)

Lemma floor_div_pos (a b : Z) : 0 < b -> floor_div a b = a / b.
Proof.
  intros Hb. destruct b as [|b|b]; try lia.
  unfold floor_div, Qfloor, Qdiv, Qmult, Qinv, inject_Z. simpl.
  now rewrite Z.mul_1_r.
Qed.

Lemma FRAME_SIZE_value : FRAME_SIZE = 230400.
Proof. reflexivity. Qed.

Lemma fixture_prefixes_disjoint (s : string) :
  startsWith s "long-video" = true -> startsWith s "test-video" = false.
Proof.
  unfold startsWith. intros H. destruct s as [|c r]; [discriminate H|].
  cbn [String.prefix] in *.
  destruct (ascii_dec "l" c) as [<-|]; [|discriminate H].
  destruct (ascii_dec "t" "l"); [discriminate | reflexivity].
Qed.

(** The size-based branch, for a name with neither fixture prefix. *)
Lemma calculateRawVideoDuration_by_size (st : FS) (filepath : string) :
  startsWith (path.basename filepath) "test-video" = false ->
  startsWith (path.basename filepath) "long-video" = false ->
  calculateRawVideoDuration st filepath =
    let! fileSize := fs.statSync_size st filepath in
    Return (inject_Z (fileSize / 230400) / 30)%Q.
Proof.
  intros Ht Hl. unfold calculateRawVideoDuration. rewrite Ht, Hl.
  destruct (fs.statSync_size st filepath); simpl; [|reflexivity].
  now rewrite floor_div_pos by reflexivity.
Qed.

(** C1: a clip whose file name starts with [test-video] lasts 5 seconds and
    one whose name starts with [long-video] lasts 360 seconds, whatever the
    file holds; any other clip of [S] bytes lasts [floor(S / 230400) / 30]
    seconds, 230400 = 320 * 240 * 3 being the size of a frame. *)
Theorem estimateDuration_by_prefix_or_size (st : FS) (filepath : string) :
  (startsWith (path.basename filepath) "test-video" = true ->
     calculateRawVideoDuration st filepath = Return 5%Q)
  /\ (startsWith (path.basename filepath) "long-video" = true ->
        calculateRawVideoDuration st filepath = Return 360%Q)
  /\ (startsWith (path.basename filepath) "test-video" = false ->
      startsWith (path.basename filepath) "long-video" = false ->
      forall content : list byte, st !! filepath = Some content ->
        calculateRawVideoDuration st filepath =
          Return (inject_Z (Z.of_nat (length content) / 230400) / 30)%Q)
  /\ FRAME_SIZE = 320 * 240 * 3 /\ FRAME_SIZE = 230400.
Proof.
  repeat split.
  - intros Ht. unfold calculateRawVideoDuration. now rewrite Ht.
  - intros Hl. unfold calculateRawVideoDuration.
    now rewrite (fixture_prefixes_disjoint _ Hl), Hl.
  - intros Ht Hl content Hc.
    rewrite calculateRawVideoDuration_by_size by assumption.
    unfold fs.statSync_size. now rewrite Hc.
Qed.

(** A two-byte fixture clip, a missing long fixture and a 3-byte plain clip. *)
Lemma estimateDuration_by_prefix_or_size_witness :
  calculateRawVideoDuration {[ "/up/test-video-1.raw" := [x01; x02] ]}
      "/up/test-video-1.raw" = Return 5%Q
  /\ calculateRawVideoDuration ∅ "/up/long-video.raw" = Return 360%Q
  /\ calculateRawVideoDuration {[ "/up/17-3.raw" := [x01; x02; x03] ]}
       "/up/17-3.raw" =
       Return (inject_Z (Z.of_nat (length [x01; x02; x03]) / 230400) / 30)%Q.
Proof.
  split; [|split].
  - apply (estimateDuration_by_prefix_or_size
             {[ "/up/test-video-1.raw" := [x01; x02] ]} "/up/test-video-1.raw").
    reflexivity.
  - apply (estimateDuration_by_prefix_or_size ∅ "/up/long-video.raw").
    reflexivity.
  - apply (estimateDuration_by_prefix_or_size
             {[ "/up/17-3.raw" := [x01; x02; x03] ]} "/up/17-3.raw");
      reflexivity.
Defined.

(** C8, as stated, does not hold: a name with a fixture prefix is answered
    from the name alone.  The path below has no file behind it and the
    estimate is still 5; an existing empty file of that name is estimated at
    5 as well, not at 0. *)
Lemma estimateDuration_fixture_never_stats :
  (∅ : FS) !! "/up/test-video.raw" = None
  /\ calculateRawVideoDuration ∅ "/up/test-video.raw" = Return 5%Q
  /\ ({[ "/up/test-video.raw" := [] ]} : FS) !! "/up/test-video.raw" = Some []
  /\ calculateRawVideoDuration {[ "/up/test-video.raw" := [] ]}
       "/up/test-video.raw" = Return 5%Q.
Proof. repeat split. Qed.

(** C8, amended: for a file name with neither fixture prefix, the estimate
    fails with the [ENOENT] system error when no file is at the path, and is
    0 for an existing file of zero bytes. *)
Theorem estimateDuration_missing_or_empty (st : FS) (filepath : string) :
  startsWith (path.basename filepath) "test-video" = false ->
  startsWith (path.basename filepath) "long-video" = false ->
  (st !! filepath = None ->
     exists e, calculateRawVideoDuration st filepath = Throw e
               /\ code e = Some "ENOENT")
  /\ (st !! filepath = Some [] ->
        exists d, calculateRawVideoDuration st filepath = Return d /\ (d == 0)%Q).
Proof.
  intros Ht Hl. rewrite calculateRawVideoDuration_by_size by assumption.
  unfold fs.statSync_size. split; intros ->; simpl.
  - eexists. split; reflexivity.
  - eexists. split; reflexivity.
Qed.

Lemma estimateDuration_missing_or_empty_witness :
  (exists e, calculateRawVideoDuration ∅ "/up/17-3.raw" = Throw e
             /\ code e = Some "ENOENT")
  /\ (exists d, calculateRawVideoDuration {[ "/up/17-3.raw" := [] ]}
                  "/up/17-3.raw" = Return d /\ (d == 0)%Q).
Proof.
  split.
  - apply (estimateDuration_missing_or_empty ∅ "/up/17-3.raw");
      reflexivity.
  - apply (estimateDuration_missing_or_empty {[ "/up/17-3.raw" := [] ]}
             "/up/17-3.raw"); reflexivity.
Defined.

(** ** Upload *)

Lemma Q_ltb_lt (a b : Q) : Q_ltb a b = true <-> (a < b)%Q.
Proof.
  unfold Q_ltb. rewrite negb_true_iff, <- not_true_iff_false, Qle_bool_iff.
  split; [apply Qnot_le_lt | apply Qlt_not_le].
Qed.

Lemma Q_ltb_ge (a b : Q) : Q_ltb a b = false <-> (b <= a)%Q.
Proof.
  unfold Q_ltb. now rewrite negb_false_iff, Qle_bool_iff.
Qed.

Lemma v_id_le_max (rows : list Video) (v : Video) :
  In v rows -> v_id v <= fold_right Z.max 0 (map v_id rows).
Proof.
  induction rows as [|w rows IH]; simpl; [tauto|].
  intros [->|Hin]; [lia|]. specialize (IH Hin). lia.
Qed.

(** The identity given to an inserted row is not in use. *)
Lemma next_rowid_fresh (db : Db) : get_video db (next_rowid (videos db)) = None.
Proof.
  unfold get_video.
  destruct (List.find _ (videos db)) as [v|] eqn:Hf; [|reflexivity].
  apply find_some in Hf as [Hin Heq]. apply Z.eqb_eq in Heq.
  apply v_id_le_max in Hin. unfold next_rowid in Heq. lia.
Qed.

(** C5: an upload whose computed duration exceeds 300 seconds is answered
    with status 400, its stored file is unlinked and the catalog is left as
    it was; an upload of at most 300 seconds appends exactly one row, under
    an unused id, holding the file name, the path, the byte size and the
    duration. *)
Theorem upload_duration_ceiling (st : FS) (db : Db) (f : UploadedFile)
    (content : list byte) (d : Q) :
  st !! file_path f = Some content ->
  calculateRawVideoDuration st (file_path f) = Return d ->
  ((300 < d)%Q ->
     post_upload st db (Some f) =
       (delete (file_path f) st, db,
        reply 400 (JsonError
          "Video duration exceeds maximum allowed length (5 minutes)"))
     /\ delete (file_path f) st !! file_path f = None)
  /\ ((d <= 300)%Q ->
        let id := next_rowid (videos db) in
        post_upload st db (Some f) =
          (st,
           {| videos := videos db ++
                [ {| v_id := id; v_filename := file_filename f;
                     v_filepath := file_path f;
                     v_size := Z.of_nat (length content); v_duration := d |} ];
              share_links := share_links db |},
           ok (JsonVideo id (file_filename f) d))
        /\ get_video db id = None).
Proof.
  intros Hc Hd. unfold post_upload, fs.statSync_size, fs.unlinkSync.
  rewrite Hc, Hd. split.
  - intros Hlt. apply Q_ltb_lt in Hlt. rewrite Hlt.
    split; [reflexivity | apply lookup_delete_eq].
  - intros Hle. apply Q_ltb_ge in Hle. rewrite Hle. simpl.
    split; [reflexivity | apply next_rowid_fresh].
Qed.

Lemma upload_duration_ceiling_witness :
  (post_upload {[ "/up/long-video.raw" := [x01] ]} empty_db (Some upload_long) =
     (delete "/up/long-video.raw" {[ "/up/long-video.raw" := [x01] ]}, empty_db,
      reply 400 (JsonError
        "Video duration exceeds maximum allowed length (5 minutes)"))
   /\ delete "/up/long-video.raw"
        ({[ "/up/long-video.raw" := [x01] ]} : FS) !! "/up/long-video.raw" = None)
  /\ (post_upload {[ "/up/17-3.raw" := [x01; x02; x03] ]} empty_db
        (Some upload_short) =
        ({[ "/up/17-3.raw" := [x01; x02; x03] ]},
         {| videos :=
              [ {| v_id := 1; v_filename := "17-3.raw";
                   v_filepath := "/up/17-3.raw"; v_size := 3;
                   v_duration := (0 # 30)%Q |} ];
            share_links := [] |},
         ok (JsonVideo 1 "17-3.raw" (0 # 30)%Q))
      /\ get_video empty_db 1 = None).
Proof.
  split.
  - apply (upload_duration_ceiling {[ "/up/long-video.raw" := [x01] ]}
             empty_db upload_long [x01] 360%Q); reflexivity.
  - apply (upload_duration_ceiling {[ "/up/17-3.raw" := [x01; x02; x03] ]}
             empty_db upload_short [x01; x02; x03] (0 # 30)%Q);
      [reflexivity | reflexivity | discriminate].
Defined.

(** ** Merge requests that are turned down *)

Lemma lookup_videos_first_missing (db : Db) (pre post : list Z) (missing : Z)
    (found : list Video) :
  Forall (fun id => get_video db id <> None) pre ->
  get_video db missing = None ->
  lookup_videos db (pre ++ missing :: post) found = inl missing.
Proof.
  intros Hpre Hmiss. revert found.
  induction Hpre as [|id pre Hid _ IH]; intros found; simpl.
  - now rewrite Hmiss.
  - destruct (get_video db id); [apply IH | congruence].
Qed.

Lemma split_at_first_missing (db : Db) (ids : list Z) :
  (exists id, In id ids /\ get_video db id = None) ->
  exists pre missing post,
    ids = pre ++ missing :: post
    /\ Forall (fun id => get_video db id <> None) pre
    /\ get_video db missing = None.
Proof.
  induction ids as [|id ids IH]; intros (x & Hin & Hx); [destruct Hin|].
  destruct (get_video db id) as [v|] eqn:Hid.
  - destruct Hin as [->|Hin]; [congruence|].
    destruct IH as (pre & missing & post & -> & Hpre & Hmiss); [eauto|].
    exists (id :: pre), missing, post. repeat split; [|assumption].
    constructor; [congruence | assumption].
  - exists [], id, ids. repeat split; [constructor | assumption].
Qed.

(** C6: a merge request with fewer than two ids is answered with status 400;
    one with at least two ids of which some has no row is answered with
    status 404 and a message naming the first such id.  Either way the
    filesystem and the catalog are left as they were. *)
Theorem merge_rejects_bad_requests (st : FS) (db : Db) (now : Z)
    (videoIds : list Z) :
  (Z.of_nat (length videoIds) < 2 ->
     post_merge st db now (Some videoIds) =
       (st, db,
        reply 400 (JsonError "Must provide at least two video IDs to merge")))
  /\ (2 <= Z.of_nat (length videoIds) ->
      (exists id, In id videoIds /\ get_video db id = None) ->
      exists pre missing post,
        videoIds = pre ++ missing :: post
        /\ Forall (fun id => get_video db id <> None) pre
        /\ get_video db missing = None
        /\ post_merge st db now (Some videoIds) =
             (st, db,
              reply 404
                (JsonError ("Video with ID " +:+ show missing +:+ " not found")))).
Proof.
  unfold post_merge. split.
  - intros Hlen. apply Z.ltb_lt in Hlen. now rewrite Hlen.
  - intros Hlen Hex. apply Z.ltb_ge in Hlen. rewrite Hlen.
    destruct (split_at_first_missing db videoIds Hex)
      as (pre & missing & post & -> & Hpre & Hmiss).
    exists pre, missing, post. repeat split; try assumption.
    now rewrite (lookup_videos_first_missing db pre post missing [] Hpre Hmiss).
Qed.

Lemma merge_rejects_bad_requests_witness :
  post_merge ∅ one_clip_db 99 (Some [1]) =
    (∅, one_clip_db,
     reply 400 (JsonError "Must provide at least two video IDs to merge"))
  /\ exists pre missing post,
       [1; 7; 1] = pre ++ missing :: post
       /\ Forall (fun id => get_video one_clip_db id <> None) pre
       /\ get_video one_clip_db missing = None
       /\ post_merge ∅ one_clip_db 99 (Some [1; 7; 1]) =
            (∅, one_clip_db,
             reply 404
               (JsonError ("Video with ID " +:+ show missing +:+ " not found"))).
Proof.
  split.
  - apply (merge_rejects_bad_requests ∅ one_clip_db 99 [1]). simpl. lia.
  - apply (merge_rejects_bad_requests ∅ one_clip_db 99 [1; 7; 1]).
    + simpl. lia.
    + exists 7. split; [simpl; tauto | reflexivity].
Defined.

(** ** Buffers *)

Lemma len_app (a b : list byte) : Buffer.len (a ++ b) = Buffer.len a + Buffer.len b.
Proof. unfold Buffer.len. rewrite length_app. lia. Qed.

Lemma len_nonneg (b : list byte) : 0 <= Buffer.len b.
Proof. unfold Buffer.len. lia. Qed.

(** A copy never resizes its target. *)
Lemma copy_keeps_length (source target out : list byte) (ts ss se : option Z) :
  Buffer.copy source target ts ss se = Return out ->
  length out = length target.
Proof.
  unfold Buffer.copy, Buffer.blit, Buffer.len.
  set (t0 := default 0 ts). set (s0 := default 0 ss).
  set (e0 := default (Z.of_nat (length source)) se).
  clearbody t0 s0 e0.
  destruct (Z.ltb_spec t0 0); [discriminate|].
  destruct (Z.ltb_spec s0 0); [discriminate|].
  destruct (Z.ltb_spec (Z.of_nat (length source)) s0); [discriminate|].
  destruct (Z.ltb_spec e0 0); [discriminate|]. simpl.
  destruct (Z.leb_spec (Z.of_nat (length target)) t0);
    [simpl; intros [= <-]; reflexivity|].
  destruct (Z.leb_spec e0 s0); simpl; [intros [= <-]; reflexivity|].
  intros [= <-].
  rewrite !length_app, !length_take, !length_drop.
  destruct (Z.ltb_spec (Z.of_nat (length target) - t0) (e0 - s0)); lia.
Qed.

(** Copying a whole buffer to the end of what has been filled so far, when
    the zero-filled remainder has room for it. *)
Lemma copy_append (filled c : list byte) (k : nat) :
  (length c <= k)%nat ->
  Buffer.copy c (filled ++ replicate k x00) (Some (Buffer.len filled)) None None =
    Return (filled ++ c ++ replicate (k - length c) x00).
Proof.
  intros Hk. unfold Buffer.copy, Buffer.blit, Buffer.len. simpl.
  rewrite length_app, length_replicate.
  destruct (Z.ltb_spec (Z.of_nat (length filled)) 0); [lia|].
  destruct (Z.ltb_spec (Z.of_nat (length c)) 0); [lia|]. simpl.
  destruct (Z.leb_spec (Z.of_nat (length filled + k)) (Z.of_nat (length filled)));
    [|destruct (Z.leb_spec (Z.of_nat (length c)) 0)]; simpl.
  - assert (length c = 0%nat) as Hc by lia.
    apply length_zero_iff_nil in Hc as ->. simpl. now rewrite Nat.sub_0_r.
  - assert (length c = 0%nat) as Hc by lia.
    apply length_zero_iff_nil in Hc as ->. simpl. now rewrite Nat.sub_0_r.
  - destruct (Z.ltb_spec (Z.of_nat (length filled + k) - Z.of_nat (length filled))
                (Z.of_nat (length c) - 0)); [lia|].
    rewrite Z.min_id, Z.sub_0_r, !Nat2Z.id, drop_0, firstn_all.
    rewrite take_app_length, drop_app_ge, drop_replicate by lia.
    replace (length filled + length c - length filled)%nat
      with (length c) by lia.
    reflexivity.
Qed.

(** Copying the range [[a, b)] of [input] into a fresh buffer of [b - a]
    zero bytes: what [input] has of the range, then zeros. *)
Lemma copy_range (input : list byte) (a b : Z) :
  0 <= a <= Buffer.len input -> a <= b ->
  Buffer.copy input (replicate (Z.to_nat (b - a)) x00) (Some 0) (Some a) (Some b) =
    Return (resize (Z.to_nat (b - a)) x00 (drop (Z.to_nat a) input)).
Proof.
  intros Ha Hab. unfold Buffer.copy, Buffer.blit, Buffer.len in *. simpl.
  rewrite length_replicate.
  destruct (Z.ltb_spec a 0); [lia|].
  destruct (Z.ltb_spec (Z.of_nat (length input)) a); [lia|].
  destruct (Z.ltb_spec b 0); [lia|]. simpl.
  rewrite Z2Nat.id by lia.
  destruct (Z.leb_spec (b - a) 0); simpl.
  - replace (Z.to_nat (b - a)) with 0%nat by lia. now rewrite resize_0.
  - destruct (Z.leb_spec b a); [lia|].
    destruct (Z.ltb_spec (b - a - 0) (b - a)); [lia|].
    rewrite resize_spec. f_equal.
    assert (length (drop (Z.to_nat a) input)
            = Z.to_nat (Z.of_nat (length input) - a)) as Hl
      by (rewrite length_drop; lia).
    destruct (Z.le_gt_cases (b - a) (Z.of_nat (length input) - a)).
    + rewrite Z.min_l by lia.
      rewrite length_take_le, drop_replicate by lia.
      do 2 f_equal. lia.
    + rewrite Z.min_r by lia. rewrite <- Hl.
      rewrite !take_ge, drop_replicate by lia. reflexivity.
Qed.


(** ** Properties of merging *)

(** The estimate of a stored file never fails. *)
Lemma estimate_of_stored (st : FS) (p : string) (c : list byte) :
  st !! p = Some c -> exists d, calculateRawVideoDuration st p = Return d.
Proof.
  intros Hc. unfold calculateRawVideoDuration, fs.statSync_size. rewrite Hc.
  destruct (startsWith _ "test-video"); [eauto|].
  destruct (startsWith _ "long-video"); simpl; eauto.
Qed.

Lemma merge_first_pass_totals (st : FS) (paths : list string)
    (contents : list (list byte)) :
  Forall2 (fun p c => st !! p = Some c) paths contents ->
  forall (accD : Q) (accS : Z),
  exists D durs,
    merge_first_pass st paths accD accS =
      Return (D, accS + Buffer.len (concat contents))
    /\ Forall2 (fun p d => calculateRawVideoDuration st p = Return d) paths durs
    /\ (D == accD + Qsum durs)%Q.
Proof.
  induction 1 as [|p c paths contents Hc _ IH]; intros accD accS.
  - exists accD, []. simpl. unfold Buffer.len. simpl.
    rewrite Z.add_0_r, Qplus_0_r. repeat split. constructor.
  - destruct (estimate_of_stored st p c Hc) as [d Hd].
    destruct (IH (accD + d)%Q (accS + Buffer.len c)) as (D & durs & HD & Hdurs & Hsum).
    exists D, (d :: durs). simpl. rewrite Hd. simpl.
    unfold fs.statSync_size. rewrite Hc. simpl.
    fold (Buffer.len c). rewrite HD, len_app, Z.add_assoc.
    repeat split; [now constructor|].
    rewrite Hsum. unfold Qsum. simpl. now rewrite Qplus_assoc.
Qed.

Lemma merge_second_pass_fills (st : FS) (paths : list string)
    (contents : list (list byte)) :
  Forall2 (fun p c => st !! p = Some c) paths contents ->
  forall filled : list byte,
    merge_second_pass st paths
      (filled ++ replicate (length (concat contents)) x00) (Buffer.len filled) =
      Return (filled ++ concat contents,
              Buffer.len filled + Buffer.len (concat contents)).
Proof.
  induction 1 as [|p c paths contents Hc _ IH]; intros filled; simpl.
  - unfold Buffer.len. simpl. now rewrite Z.add_0_r.
  - unfold fs.readFileSync. rewrite Hc. simpl.
    rewrite copy_append by (rewrite length_app; lia). simpl.
    rewrite length_app, Nat.add_comm, Nat.add_sub.
    rewrite (app_assoc filled c), <- len_app, IH.
    now rewrite <- app_assoc, !len_app, Z.add_assoc.
Qed.

(** C3: merging at least two stored clips writes a file that holds the
    clips' bytes one after the other in the order given, so that its size is
    the sum of theirs, and reports the sum of the clips' own estimated
    durations. *)
Theorem mergeVideos_concatenates (st : FS) (now : Z) (inputPaths : list string)
    (contents : list (list byte)) :
  (2 <= length inputPaths)%nat ->
  Forall2 (fun p c => st !! p = Some c) inputPaths contents ->
  exists st' r durs,
    mergeVideos st now inputPaths = Return (st', r)
    /\ st' = <[outputPath r := concat contents]> st
    /\ st' !! outputPath r = Some (concat contents)
    /\ Buffer.len (concat contents) = fold_right Z.add 0 (map Buffer.len contents)
    /\ Forall2 (fun p d => calculateRawVideoDuration st p = Return d)
         inputPaths durs
    /\ (duration r == Qsum durs)%Q.
Proof.
  intros Hlen Hall.
  destruct (merge_first_pass_totals st inputPaths contents Hall 0%Q 0)
    as (D & durs & Hfirst & Hdurs & Hsum).
  pose proof (merge_second_pass_fills st inputPaths contents Hall []) as Hsecond.
  destruct inputPaths as [|first rest]; [simpl in Hlen; lia|].
  exists (<[mergedPath first now := concat contents]> st),
    {| outputPath := mergedPath first now; duration := D |}, durs.
  repeat split.
  - unfold mergeVideos. cbn [bind]. rewrite Hfirst. cbn [bind fst snd].
    unfold Buffer.alloc. rewrite Z.add_0_l.
    destruct (Z.ltb_spec (Buffer.len (concat contents)) 0);
      [pose proof (len_nonneg (concat contents)); lia|].
    cbn [bind]. unfold Buffer.len at 1. rewrite Nat2Z.id.
    simpl app in Hsecond. change (Buffer.len []) with 0 in Hsecond.
    rewrite Hsecond. reflexivity.
  - apply lookup_insert_eq.
  - clear. induction contents as [|c cs IH]; [reflexivity|].
    simpl. now rewrite len_app, IH.
  - assumption.
  - simpl. now rewrite Hsum, Qplus_0_l.
Qed.

Lemma mergeVideos_concatenates_witness :
  exists st' r durs,
    mergeVideos two_clips 99 ["/up/b.raw"; "/up/a.raw"] = Return (st', r)
    /\ st' = <[outputPath r := concat [[x03]; [x01; x02]]]> two_clips
    /\ st' !! outputPath r = Some (concat [[x03]; [x01; x02]])
    /\ Buffer.len (concat [[x03]; [x01; x02]]) =
         fold_right Z.add 0 (map Buffer.len [[x03]; [x01; x02]])
    /\ Forall2 (fun p d => calculateRawVideoDuration two_clips p = Return d)
         ["/up/b.raw"; "/up/a.raw"] durs
    /\ (duration r == Qsum durs)%Q.
Proof.
  apply (mergeVideos_concatenates two_clips 99 ["/up/b.raw"; "/up/a.raw"]
           [[x03]; [x01; x02]]).
  - simpl. lia.
  - constructor; [reflexivity|]. constructor; [reflexivity|]. constructor.
Defined.

(** The merged duration is the sum of the estimates, which the merged file's
    own size need not give back: two one-byte fixture clips merge into a
    two-byte file reported at 10 seconds, whose own estimate is 0. *)
Example merged_duration_is_not_recomputed :
  mergeVideos fixture_pair 99 ["/up/test-video-a.raw"; "/up/test-video-b.raw"] =
    Return (<["/up/merged-99.raw" := [x01; x02]]> fixture_pair,
            {| outputPath := "/up/merged-99.raw"; duration := (0 + 5 + 5)%Q |})
  /\ calculateRawVideoDuration
       (<["/up/merged-99.raw" := [x01; x02]]> fixture_pair) "/up/merged-99.raw"
     = Return (0 # 30)%Q.
Proof.
  split; [reflexivity|].
  unfold calculateRawVideoDuration, fs.statSync_size.
  now rewrite lookup_insert_eq.
Qed.

(** ** Properties of trimming *)

Lemma frame_size_eq : RAW_VIDEO_WIDTH * RAW_VIDEO_HEIGHT * BYTES_PER_PIXEL = FRAME_SIZE.
Proof. reflexivity. Qed.

Lemma positive_duration (total ts te : Q) :
  Qle_bool (total - ts - te) 0 = false <-> (0 < total - ts - te)%Q.
Proof.
  rewrite <- not_true_iff_false, Qle_bool_iff.
  split; [apply Qnot_le_lt | apply Qlt_not_le].
Qed.




Lemma alloc_nonneg (n : Z) :
  0 <= n -> Buffer.alloc n = Return (replicate (Z.to_nat n) x00).
Proof.
  intros Hn. unfold Buffer.alloc. now destruct (Z.ltb_spec n 0); [lia|].
Qed.

(** Rounding to a double: the doubles nearest to a tenth, to a third and to
    4.1 (which is also the estimate of 123 frames); whole numbers up to
    [2^53] are doubles, and beyond that a number halfway between two doubles
    goes to the one with the even significand; the subnormal range ends at
    [2^-1074]. *)
Example to_double_samples :
  to_double (1 # 10) = (3602879701896397 # 36028797018963968)%Q
  /\ to_double (1 # 3) = (6004799503160661 # 18014398509481984)%Q
  /\ to_double (41 # 10) = (2308094809027379 # 562949953421312)%Q
  /\ to_double (123 # 30) = to_double (41 # 10)
  /\ to_double (9 # 2) = (9 # 2)%Q
  /\ to_double (inject_Z (2 ^ 53)) = inject_Z (2 ^ 53)
  /\ to_double (inject_Z (2 ^ 53 + 1)) = inject_Z (2 ^ 53)
  /\ to_double (inject_Z (2 ^ 53 + 3)) = inject_Z (2 ^ 53 + 4)
  /\ to_double (2 ^ (-1075)) = 0%Q
  /\ to_double (3 * 2 ^ (-1075)) = Qred (2 ^ (-1073)).
Proof. vm_compute. repeat split. Qed.

(** Frame numbers are floors of doubles: thirty times the double nearest
    to 4.1 is a little less than 123, thirty times the one nearest to 0.3
    is 9, and a clip of 123 frames, estimated at 123/30 seconds, ends at
    frame 122. *)
Example frame_numbers_on_doubles :
  startFrameOf (41 # 10) = 122 /\ startFrameOf (3 # 10) = 9
  /\ startFrameOf 1 = 30 /\ startFrameOf (1 # 16) = 1
  /\ endFrameOf (123 # 30) 0 = 122 /\ endFrameOf 5 0 = 150
  /\ endFrameOf 5 1 = 120 /\ endFrameOf 5 (9 # 2) = 15.
Proof. vm_compute. repeat split. Qed.

(** The raw branch, when the frame window is in order and its first frame
    starts inside the file. *)
Lemma trim_raw_written (st : FS) (now : Z) (p : string) (o : TrimOptions)
    (total : Q) (input : list byte) :
  endsWith p ".raw" = true ->
  calculateRawVideoDuration st p = Return total ->
  st !! p = Some input ->
  (0 < total - or_zero (trimStart o) - or_zero (trimEnd o))%Q ->
  startFrameOf (or_zero (trimStart o)) <= endFrameOf total (or_zero (trimEnd o)) ->
  0 <= startFrameOf (or_zero (trimStart o)) * FRAME_SIZE <= Buffer.len input ->
  processVideo_try st now p o =
    Return (Written
      (<[trimmedPath p now :=
           trim_bytes input (startFrameOf (or_zero (trimStart o)))
             (endFrameOf total (or_zero (trimEnd o)))]> st)
      {| outputPath := trimmedPath p now;
         duration := (total - or_zero (trimStart o) - or_zero (trimEnd o))%Q |}).
Proof.
  intros Hraw Hd Hin Hpos Hord Hs.
  unfold processVideo_try. rewrite Hd. cbn [bind]. cbv zeta.
  rewrite (proj2 (positive_duration _ _ _) Hpos), Hraw, frame_size_eq.
  unfold fs.readFileSync. rewrite Hin. cbn [bind].
  rewrite alloc_nonneg by (apply Z.mul_nonneg_nonneg; [lia | discriminate]).
  cbn [bind].
  rewrite Z.mul_sub_distr_r, copy_range;
    [|assumption | apply Z.mul_le_mono_nonneg_r; [discriminate | assumption]].
  cbn [bind]. unfold trim_bytes, fs.writeFileSync.
  now rewrite Z.mul_sub_distr_r.
Qed.


(** Whatever the raw branch writes has the length of the frame window. *)
Lemma trim_raw_result (st : FS) (now : Z) (p : string) (o : TrimOptions)
    (total : Q) (step : TrimStep) :
  endsWith p ".raw" = true ->
  calculateRawVideoDuration st p = Return total ->
  processVideo_try st now p o = Return step ->
  exists out,
    step = Written (<[trimmedPath p now := out]> st)
             {| outputPath := trimmedPath p now;
                duration := (total - or_zero (trimStart o) - or_zero (trimEnd o))%Q |}
    /\ Buffer.len out =
         (endFrameOf total (or_zero (trimEnd o))
          - startFrameOf (or_zero (trimStart o))) * FRAME_SIZE.
Proof.
  intros Hraw Hd. unfold processVideo_try. rewrite Hd. cbn [bind]. cbv zeta.
  destruct (Qle_bool _ 0); [discriminate|]. rewrite Hraw, frame_size_eq.
  destruct (fs.readFileSync st p) as [input|]; [|discriminate]. cbn [bind].
  unfold Buffer.alloc.
  destruct (Z.ltb_spec
              ((endFrameOf total (or_zero (trimEnd o))
                - startFrameOf (or_zero (trimStart o))) * FRAME_SIZE) 0);
    [discriminate|]. cbn [bind].
  destruct (Buffer.copy _ _ _ _ _) as [out|] eqn:Hcopy; [|discriminate].
  cbn [bind]. intros [= <-]. exists out. split; [reflexivity|].
  apply copy_keeps_length in Hcopy. unfold Buffer.len.
  rewrite Hcopy, length_replicate. lia.
Qed.

(** What is left of the two-frame clip when its first frame is cut. *)
Lemma resize_drop_app (a b : list byte) (n : nat) :
  length a = n -> length b = n -> resize n x00 (drop n (a ++ b)) = b.
Proof.
  intros <- Hb. rewrite drop_app_length, <- Hb. apply resize_all.
Qed.

Lemma second_frame_kept : trim_bytes two_frames 1 2 = second_frame.
Proof.
  unfold trim_bytes, two_frames.
  change (Z.to_nat (1 * FRAME_SIZE)) with (Z.to_nat 230400).
  change (Z.to_nat ((2 - 1) * FRAME_SIZE)) with (Z.to_nat 230400).
  apply resize_drop_app; apply length_replicate.
Qed.

Lemma len_two_frames : Buffer.len two_frames = 460800.
Proof.
  unfold two_frames, first_frame, second_frame.
  rewrite len_app. unfold Buffer.len. rewrite !length_replicate.
  rewrite Z2Nat.id by discriminate. reflexivity.
Qed.

Lemma two_frame_estimate :
  calculateRawVideoDuration two_frame_clip "/up/17-5.raw" = Return (2 # 30)%Q.
Proof.
  rewrite calculateRawVideoDuration_by_size by reflexivity.
  unfold fs.statSync_size, two_frame_clip. rewrite lookup_singleton_eq.
  cbn [bind]. fold (Buffer.len two_frames). rewrite len_two_frames.
  reflexivity.
Qed.

Section TrimTheorems.

Variable ffmpeg_run : FS -> FfmpegCommand -> string + FS.


End TrimTheorems.


(** A clip of 150 frames exists. *)
Example clip_of_150_frames :
  Buffer.len (replicate (Z.to_nat (150 * 230400)) x00) = 150 * 230400.
Proof. unfold Buffer.len. rewrite length_replicate. apply Z2Nat.id. discriminate. Qed.


Section TrimPastTheEnd.

Variable ffmpeg_run : FS -> FfmpegCommand -> string + FS.


End TrimPastTheEnd.


(** ** The trim route *)




Section TrimRoute.

Variable ffmpeg_run : FS -> FfmpegCommand -> string + FS.


End TrimRoute.


(** ** Paths *)

Lemma append_nil (b : string) : "" +:+ b = b.
Proof. reflexivity. Qed.

Lemma append_cons (c : ascii) (a b : string) :
  String c a +:+ b = String c (a +:+ b).
Proof. reflexivity. Qed.

Ltac string_step := rewrite ?append_cons, ?append_nil; simpl.

Lemma append_empty_r (s : string) : s +:+ "" = s.
Proof. induction s as [|c s IH]; string_step; [reflexivity | now rewrite IH]. Qed.

Lemma append_assoc (a b c : string) : (a +:+ b) +:+ c = a +:+ (b +:+ c).
Proof. induction a as [|x a IH]; string_step; [reflexivity | now rewrite IH]. Qed.

Lemma length_append (a b : string) :
  String.length (a +:+ b) = (String.length a + String.length b)%nat.
Proof. induction a as [|x a IH]; string_step; [reflexivity | now rewrite IH]. Qed.

Lemma has_sep_append (a b : string) :
  path.has_sep (a +:+ b) = path.has_sep a || path.has_sep b.
Proof.
  induction a as [|x a IH]; string_step; [reflexivity|].
  now rewrite IH, orb_assoc.
Qed.

Lemma basename_has_no_sep (p : string) : path.has_sep (path.basename p) = false.
Proof.
  induction p as [|c r IH]; simpl; [reflexivity|].
  destruct (path.has_sep r) eqn:Hr; [exact IH|].
  destruct (Ascii.eqb c path.sep) eqn:Hc; [exact Hr|].
  simpl. now rewrite Hc, Hr.
Qed.

Lemma basename_plain (f : string) : path.has_sep f = false -> path.basename f = f.
Proof.
  destruct f as [|c r]; simpl; [reflexivity|].
  intros H. apply orb_false_elim in H as [Hc Hr]. now rewrite Hr, Hc.
Qed.

(** A plain suffix stays in the basename. *)
Lemma basename_append_plain (x suf : string) :
  path.has_sep suf = false ->
  path.basename (x +:+ suf) = path.basename x +:+ suf.
Proof.
  intros Hsuf. induction x as [|c r IH]; string_step.
  - now apply basename_plain.
  - rewrite has_sep_append, Hsuf, orb_false_r.
    destruct (path.has_sep r); [exact IH|].
    now destruct (Ascii.eqb c path.sep).
Qed.

Lemma basename_after_sep (d f : string) :
  path.has_sep f = false -> path.basename (d +:+ "/" +:+ f) = f.
Proof.
  intros Hf. induction d as [|c r IH]; string_step.
  - now rewrite Hf.
  - rewrite has_sep_append. string_step. now rewrite orb_true_r.
Qed.

Lemma basename_join (d f : string) :
  path.has_sep f = false -> path.basename (path.join d f) = f.
Proof.
  intros Hf. unfold path.join.
  destruct (String.eqb d "."); [now apply basename_plain|].
  destruct (String.eqb d "/"); [|now apply basename_after_sep].
  string_step. now rewrite Hf.
Qed.

(** Template literals of whole numbers are made of digits and a sign. *)
Lemma digits_plain (d : Decimal.uint) :
  path.has_sep (NilEmpty.string_of_uint d) = false
  /\ path.last_dot_suffix (NilEmpty.string_of_uint d) = None.
Proof.
  induction d as [|d [IH1 IH2]|d [IH1 IH2]|d [IH1 IH2]|d [IH1 IH2]|d [IH1 IH2]
                 |d [IH1 IH2]|d [IH1 IH2]|d [IH1 IH2]|d [IH1 IH2]|d [IH1 IH2]];
    simpl; rewrite ?IH1, ?IH2; split; reflexivity.
Qed.

Lemma show_plain (n : Z) :
  path.has_sep (show n) = false /\ path.last_dot_suffix (show n) = None.
Proof.
  unfold show, NilZero.string_of_int, NilZero.string_of_uint.
  destruct (Z.to_int n) as [d|d].
  - destruct d; [split; reflexivity | apply digits_plain ..].
  - assert (path.has_sep (NilEmpty.string_of_uint d) = false
            /\ path.last_dot_suffix (NilEmpty.string_of_uint d) = None) as [H1 H2]
      by apply digits_plain.
    destruct d; simpl in *; rewrite ?H1, ?H2; split; reflexivity.
Qed.

Lemma last_dot_suffix_append_ext (x e : string) :
  path.last_dot_suffix e = None ->
  path.last_dot_suffix (x +:+ String path.dot e) = Some (String path.dot e).
Proof.
  intros He. induction x as [|c x IH]; string_step.
  - now rewrite He.
  - now rewrite IH.
Qed.

Lemma last_dot_suffix_append_none (a b : string) :
  path.last_dot_suffix a = None -> path.last_dot_suffix b = None ->
  path.last_dot_suffix (a +:+ b) = None.
Proof.
  intros Ha Hb. induction a as [|c a IH]; string_step; [exact Hb|].
  simpl in Ha. destruct (path.last_dot_suffix a); [discriminate|].
  rewrite IH by reflexivity. now destruct (Ascii.eqb c path.dot).
Qed.

Lemma strip_suffix_cons (e : string) (c : ascii) (r : string) :
  path.strip_suffix e (String c r) =
    if String.eqb (String c r) e then "" else String c (path.strip_suffix e r).
Proof. reflexivity. Qed.

Lemma strip_suffix_append (pre e : string) : path.strip_suffix e (pre +:+ e) = pre.
Proof.
  induction pre as [|c pre IH]; rewrite ?append_cons, ?append_nil.
  - destruct e as [|c e]; [reflexivity|].
    now rewrite strip_suffix_cons, String.eqb_refl.
  - rewrite strip_suffix_cons.
    destruct (String.eqb (String c (pre +:+ e)) e) eqn:Heq; [|now rewrite IH].
    apply String.eqb_eq in Heq. apply (f_equal String.length) in Heq.
    simpl in Heq. rewrite length_append in Heq. lia.
Qed.

Lemma has_sep_strip_suffix (e s : string) :
  path.has_sep s = false -> path.has_sep (path.strip_suffix e s) = false.
Proof.
  induction s as [|c s IH].
  - intros _. now destruct e.
  - intros H. simpl in H. apply orb_false_elim in H as [Hc Hs].
    rewrite strip_suffix_cons.
    destruct (String.eqb (String c s) e); [reflexivity|].
    simpl. now rewrite Hc, IH.
Qed.

Lemma has_sep_last_dot_suffix (s e : string) :
  path.has_sep s = false -> path.last_dot_suffix s = Some e ->
  path.has_sep e = false.
Proof.
  induction s as [|c s IH]; simpl; [discriminate|].
  intros H. apply orb_false_elim in H as [Hc Hs].
  destruct (path.last_dot_suffix s) as [e'|].
  - intros [= <-]. now apply IH.
  - destruct (Ascii.eqb c path.dot); [|discriminate].
    intros [= <-]. simpl. now rewrite Hc, Hs.
Qed.

Lemma ext_of_cons (c : ascii) (r : string) :
  path.ext_of (String c r) =
    if String.eqb (String c r) ".." then ""
    else match path.last_dot_suffix r with Some e => e | None => "" end.
Proof. reflexivity. Qed.

Lemma has_sep_extname (p : string) : path.has_sep (path.extname p) = false.
Proof.
  unfold path.extname. pose proof (basename_has_no_sep p) as Hb.
  destruct (path.basename p) as [|c r]; [reflexivity|].
  rewrite ext_of_cons.
  destruct (String.eqb (String c r) ".."); [reflexivity|].
  destruct (path.last_dot_suffix r) as [e|] eqn:He; [|reflexivity].
  simpl in Hb. apply orb_false_elim in Hb as [_ Hr].
  exact (has_sep_last_dot_suffix r e Hr He).
Qed.

(** The name a trim gives its output: the source's name without its
    extension, [-trimmed-], the timestamp, and the source's extension. *)
Lemma trimmed_basename (p : string) (now : Z) :
  path.basename (trimmedPath p now) =
    path.basename_ext p (path.extname p) +:+ "-trimmed-" +:+ show now
      +:+ path.extname p.
Proof.
  unfold trimmedPath. apply basename_join.
  rewrite !has_sep_append, has_sep_extname, (proj1 (show_plain now)).
  unfold path.basename_ext.
  now rewrite has_sep_strip_suffix by apply basename_has_no_sep.
Qed.

Lemma endsWith_split (s suf : string) :
  endsWith s suf = true -> exists x, s = x +:+ suf.
Proof.
  induction s as [|c s IH]; cbn [endsWith].
  - rewrite orb_false_r. intros H. apply String.eqb_eq in H as <-. now exists "".
  - intros H. apply orb_true_iff in H as [H|H].
    + apply String.eqb_eq in H as <-. now exists "".
    + destruct (IH H) as [x ->]. now exists (String c x).
Qed.

Lemma not_dotdot (s : string) :
  (2 < String.length s)%nat -> String.eqb s ".." = false.
Proof.
  intros Hlen. destruct (String.eqb s "..") eqn:Heq; [|reflexivity].
  apply String.eqb_eq in Heq. subst s. simpl in Hlen. lia.
Qed.

(** The name of a raw clip splits into a stem and its extension; the
    extension is [.raw] unless [.raw] is the whole name. *)
Lemma raw_name_parts (p : string) :
  endsWith p ".raw" = true ->
  (path.basename p = ".raw" /\ path.extname p = ""
   /\ path.basename_ext p (path.extname p) = ".raw")
  \/ (exists c r, path.basename p = String c r +:+ ".raw"
        /\ path.extname p = ".raw"
        /\ path.basename_ext p (path.extname p) = String c r).
Proof.
  intros Hraw. destruct (endsWith_split p ".raw" Hraw) as [x ->].
  unfold path.basename_ext, path.extname.
  rewrite basename_append_plain by reflexivity.
  destruct (path.basename x) as [|c r].
  - left. repeat split.
  - right. exists c, r. rewrite append_cons, ext_of_cons.
    rewrite not_dotdot
      by (simpl; rewrite length_append; simpl; lia).
    change ".raw" with (String path.dot "raw").
    rewrite (last_dot_suffix_append_ext r "raw") by reflexivity.
    split; [reflexivity|]. split; [reflexivity|].
    rewrite <- append_cons. apply strip_suffix_append.
Qed.

(** C9's extension clause. *)
Lemma trimmed_extname (p : string) (now : Z) :
  endsWith p ".raw" = true ->
  path.extname (trimmedPath p now) = path.extname p.
Proof.
  intros Hraw. unfold path.extname at 1. rewrite trimmed_basename.
  destruct (raw_name_parts p Hraw) as [(_ & -> & ->) | (c & r & _ & -> & ->)].
  - rewrite append_empty_r.
    change (".raw" +:+ "-trimmed-" +:+ show now)
      with (String path.dot ("raw-trimmed-" +:+ show now)).
    rewrite ext_of_cons.
    rewrite not_dotdot by (simpl; rewrite length_append; simpl; lia).
    now rewrite last_dot_suffix_append_none by (reflexivity || apply show_plain).
  - rewrite append_cons, ext_of_cons.
    rewrite not_dotdot by (simpl; rewrite !length_append; simpl; lia).
    rewrite <- (append_assoc "-trimmed-"), <- (append_assoc r).
    change ".raw" with (String path.dot "raw").
    now rewrite (last_dot_suffix_append_ext _ "raw") by reflexivity.
Qed.

(** The output of a trim is not its source. *)
Lemma trimmed_path_differs (p : string) (now : Z) :
  endsWith p ".raw" = true -> trimmedPath p now <> p.
Proof.
  intros Hraw Heq. apply (f_equal path.basename) in Heq.
  rewrite trimmed_basename in Heq. apply (f_equal String.length) in Heq.
  destruct (raw_name_parts p Hraw) as [(Hb & He & Hs) | (c & r & Hb & He & Hs)];
    rewrite Hs, He, Hb in Heq; rewrite !length_append in Heq; simpl in Heq; lia.
Qed.

(** ** Where a trim writes *)

(** C9, as stated, does not hold: the name of the output has no random
    part.  It is made of the source's name and the timestamp alone, so two
    trims of one clip within the same millisecond are given the same path,
    and the second is written over the file of the first. *)
Lemma trims_in_one_millisecond_collide :
  exists st1 r1 st2 r2 out1 out2,
    processVideo no_ffmpeg fixture_three_bytes 7 "/up/test-video.raw"
      keep_half_second = Return (st1, r1)
    /\ processVideo no_ffmpeg st1 7 "/up/test-video.raw" keep_one_second
       = Return (st2, r2)
    /\ outputPath r1 = "/up/test-video-trimmed-7.raw"
    /\ outputPath r2 = "/up/test-video-trimmed-7.raw"
    /\ st1 !! "/up/test-video-trimmed-7.raw" = Some out1
    /\ st2 !! "/up/test-video-trimmed-7.raw" = Some out2
    /\ Buffer.len out1 = 15 * 230400
    /\ Buffer.len out2 = 30 * 230400.
Proof.
  eexists _, _, _, _, _, _. split; [|split].
  - unfold processVideo.
    rewrite (trim_raw_written fixture_three_bytes 7 "/up/test-video.raw"
               keep_half_second 5%Q [x01; x02; x03]);
      [reflexivity | reflexivity | reflexivity | reflexivity | reflexivity
      | vm_compute; discriminate | vm_compute; split; discriminate].
  - unfold processVideo.
    rewrite (trim_raw_written _ 7 "/up/test-video.raw" keep_one_second 5%Q
               [x01; x02; x03]);
      [reflexivity | reflexivity | reflexivity | | reflexivity
      | vm_compute; discriminate | vm_compute; split; discriminate].
    rewrite lookup_insert_ne; [reflexivity|].
    now apply trimmed_path_differs.
  - do 2 (split; [reflexivity|]).
    split; [apply lookup_insert_eq|]. split; [apply lookup_insert_eq|].
    unfold trim_bytes, Buffer.len. rewrite !length_resize.
    split; (rewrite Z2Nat.id; [vm_compute; reflexivity | vm_compute; discriminate]).
Qed.

(** A trim that returns went through the raw branch, which only adds the
    output file. *)
Lemma trim_raw_shape (ffmpeg_run : FS -> FfmpegCommand -> string + FS)
    (st st' : FS) (now : Z) (p : string) (o : TrimOptions) (r : TransformResult) :
  endsWith p ".raw" = true ->
  processVideo ffmpeg_run st now p o = Return (st', r) ->
  exists out,
    st' = <[trimmedPath p now := out]> st /\ outputPath r = trimmedPath p now.
Proof.
  intros Hraw. unfold processVideo.
  destruct (processVideo_try st now p o) as [step|err] eqn:Htry; [|discriminate].
  destruct (calculateRawVideoDuration st p) as [total|err] eqn:Hd.
  - destruct (trim_raw_result st now p o total step Hraw Hd Htry)
      as (out & -> & _).
    cbn [rethrow]. intros [= <- <-]. now exists out.
  - unfold processVideo_try in Htry. rewrite Hd in Htry. discriminate Htry.
Qed.

Section TrimOutput.

Variable ffmpeg_run : FS -> FfmpegCommand -> string + FS.

(** C9, amended: the output of a raw trim is written to the path made of
    the source's directory, the source's name without its extension,
    [-trimmed-], the decimal timestamp and the source's extension, with
    nothing random in it, and after the trim a file is stored there; the
    extension of the output is that of the source; the path is not the
    source's, the source file is left as it was, and so is every file other
    than the output. *)
Theorem trim_output_path (st st' : FS) (now : Z) (p : string)
    (o : TrimOptions) (r : TransformResult) :
  endsWith p ".raw" = true ->
  processVideo ffmpeg_run st now p o = Return (st', r) ->
  outputPath r =
    path.join (path.dirname p)
      (path.basename_ext p (path.extname p) +:+ "-trimmed-" +:+ show now
         +:+ path.extname p)
  /\ (exists out, st' !! outputPath r = Some out
                  /\ st' = <[outputPath r := out]> st)
  /\ path.basename (outputPath r) =
       path.basename_ext p (path.extname p) +:+ "-trimmed-" +:+ show now
         +:+ path.extname p
  /\ path.extname (outputPath r) = path.extname p
  /\ outputPath r <> p
  /\ st' !! p = st !! p
  /\ (forall q, q <> outputPath r -> st' !! q = st !! q).
Proof.
  intros Hraw Hrun.
  destruct (trim_raw_shape ffmpeg_run st st' now p o r Hraw Hrun)
    as (out & -> & ->).
  pose proof (trimmed_path_differs p now Hraw) as Hne.
  split; [reflexivity|].
  split; [exists out; split; [apply lookup_insert_eq | reflexivity]|].
  split; [apply trimmed_basename|].
  split; [now apply trimmed_extname|]. split; [exact Hne|].
  split; [now apply lookup_insert_ne|].
  intros q Hq. apply lookup_insert_ne. congruence.
Qed.

End TrimOutput.

Lemma trim_output_path_witness :
  (exists out,
      (<["/up/17-5-trimmed-7.raw" := second_frame]> two_frame_clip : FS)
        !! "/up/17-5-trimmed-7.raw" = Some out
      /\ Buffer.len out = 230400)
  /\ path.basename "/up/17-5-trimmed-7.raw" =
       path.basename_ext "/up/17-5.raw" (path.extname "/up/17-5.raw")
         +:+ "-trimmed-" +:+ show 7 +:+ path.extname "/up/17-5.raw"
  /\ path.extname "/up/17-5-trimmed-7.raw" = path.extname "/up/17-5.raw"
  /\ "/up/17-5-trimmed-7.raw" <> "/up/17-5.raw"
  /\ (<["/up/17-5-trimmed-7.raw" := second_frame]> two_frame_clip : FS)
       !! "/up/17-5.raw" = Some two_frames.
Proof.
  destruct (trim_output_path no_ffmpeg two_frame_clip
              (<["/up/17-5-trimmed-7.raw" := second_frame]> two_frame_clip) 7
              "/up/17-5.raw" cut_first_frame
              {| outputPath := "/up/17-5-trimmed-7.raw";
                 duration := ((2 # 30) - (1 # 16) - 0)%Q |})
    as (_ & (out & Hout & _) & Hname & Hext & Hne & Hsrc & _).
  - reflexivity.
  - unfold processVideo.
    rewrite (trim_raw_written two_frame_clip 7 "/up/17-5.raw" cut_first_frame
               (2 # 30)%Q two_frames);
      [| reflexivity | exact two_frame_estimate | reflexivity | reflexivity
       | vm_compute; discriminate
       | rewrite len_two_frames; vm_compute; split; discriminate].
    replace (startFrameOf (or_zero (trimStart cut_first_frame))) with 1
      by (vm_compute; reflexivity).
    replace (endFrameOf (2 # 30) (or_zero (trimEnd cut_first_frame))) with 2
      by (vm_compute; reflexivity).
    rewrite second_frame_kept. reflexivity.
  - split.
    + exists out. split; [exact Hout|].
      cbn [outputPath] in Hout. rewrite lookup_insert_eq in Hout.
      injection Hout as <-. unfold Buffer.len, second_frame.
      rewrite length_replicate. apply Z2Nat.id. discriminate.
    + split; [exact Hname|]. split; [exact Hext|]. split; [exact Hne|].
      rewrite Hsrc. reflexivity.
Defined.

(** ** Share links *)

Lemma in_share_join (db : Db) (l : ShareLink) (v : Video) :
  In (l, v) (share_join db) <->
  In l (share_links db) /\ In v (videos db) /\ v_id v = video_id l.
Proof.
  unfold share_join. rewrite in_flat_map. split.
  - intros (l' & Hl & Hin). apply in_map_iff in Hin as (v' & [= -> ->] & Hv).
    apply filter_In in Hv as [Hv Hid]. apply Z.eqb_eq in Hid. auto.
  - intros (Hl & Hv & Hid). exists l. split; [assumption|].
    apply in_map. apply filter_In. split; [assumption | now apply Z.eqb_eq].
Qed.

(** The query finds nothing exactly when every joined row of that token has
    an expiry whose second is not after the second of the clock. *)
Lemma select_share_none (db : Db) (now : Z) (tok : string) :
  select_share db now tok = None <->
  forall l v, In (l, v) (share_join db) -> token l = tok ->
              datetime (expiry_timestamp l) <= datetime now.
Proof.
  unfold select_share. split.
  - intros Hnone l v Hin Htok.
    pose proof (find_none _ _ Hnone (l, v) Hin) as Hf. simpl in Hf.
    rewrite (proj2 (String.eqb_eq _ _) Htok) in Hf. simpl in Hf.
    now apply Z.ltb_ge in Hf.
  - intros Hall.
    destruct (List.find _ (share_join db)) as [[l v]|] eqn:Hf; [|reflexivity].
    apply find_some in Hf as [Hin Hp]. simpl in Hp.
    apply andb_true_iff in Hp as [Htok Hlt].
    apply String.eqb_eq in Htok. apply Z.ltb_lt in Hlt.
    specialize (Hall l v Hin Htok). lia.
Qed.

Lemma select_share_some (db : Db) (now : Z) (tok : string) (l : ShareLink)
    (v : Video) :
  select_share db now tok = Some (l, v) ->
  In l (share_links db) /\ In v (videos db) /\ v_id v = video_id l
  /\ token l = tok /\ datetime now < datetime (expiry_timestamp l).
Proof.
  unfold select_share. intros Hf. apply find_some in Hf as [Hin Hp].
  apply in_share_join in Hin as (Hl & Hv & Hid). simpl in Hp.
  apply andb_true_iff in Hp as [Htok Hlt].
  apply String.eqb_eq in Htok. apply Z.ltb_lt in Hlt. auto.
Qed.

Lemma datetime_mono (a b : Z) : a <= b -> datetime a <= datetime b.
Proof. intros H. unfold datetime. now apply Z.div_le_mono. Qed.

Lemma get_video_some_in (db : Db) (id : Z) :
  get_video db id <> None -> exists v, In v (videos db) /\ v_id v = id.
Proof.
  unfold get_video. destruct (List.find _ (videos db)) as [v|] eqn:Hf; [|congruence].
  intros _. apply find_some in Hf as [Hin Hid]. apply Z.eqb_eq in Hid. eauto.
Qed.

(** C4, as stated, does not hold: the query compares whole seconds.  A link
    that expires 1500 ms after the epoch is refused at 1200 ms, which is
    strictly before its expiry; it is served at 999 ms. *)
Lemma share_link_refused_before_expiry :
  In {| video_id := 1; token := "7-k3x"; expiry_timestamp := 1500 |}
     (share_links shared_db)
  /\ 1200 < 1500
  /\ get_share three_byte_clip shared_db 1200 "7-k3x" =
       (three_byte_clip, shared_db,
        reply 404 (JsonError "Share link not found or expired"))
  /\ get_share three_byte_clip shared_db 999 "7-k3x" =
       (three_byte_clip, shared_db,
        ok (FileStream "video/raw" "17-3.raw" "/up/17-3.raw")).
Proof.
  split; [now left|]. split; [lia|]. split; reflexivity.
Qed.

(** C4, amended: in a catalog whose share links all point at a stored clip,
    resolving a token is answered with status 404 exactly when every link
    carrying the token has an expiry whose whole second is not after the
    whole second of the clock read by the query; otherwise some such link's
    clip is served.  So a link is refused from its expiry on and served up
    to one second before it; a refusal stays a refusal at any later time,
    and resolving changes neither the files nor the tables. *)
Theorem share_resolution_by_whole_seconds (st : FS) (db : Db) (now : Z)
    (tok : string) :
  (forall l, In l (share_links db) -> get_video db (video_id l) <> None) ->
  (get_share st db now tok =
     (st, db, reply 404 (JsonError "Share link not found or expired"))
   <-> forall l, In l (share_links db) -> token l = tok ->
                 datetime (expiry_timestamp l) <= datetime now)
  /\ ((exists l, In l (share_links db) /\ token l = tok
                 /\ datetime now < datetime (expiry_timestamp l)) ->
      exists l v,
        In l (share_links db) /\ token l = tok
        /\ datetime now < datetime (expiry_timestamp l)
        /\ In v (videos db) /\ v_id v = video_id l
        /\ get_share st db now tok =
             (st, db, ok (FileStream "video/raw" (v_filename v) (v_filepath v))))
  /\ (forall l, In l (share_links db) -> token l = tok ->
        (expiry_timestamp l <= now ->
           datetime (expiry_timestamp l) <= datetime now)
        /\ (now + 1000 <= expiry_timestamp l ->
              datetime now < datetime (expiry_timestamp l)))
  /\ (forall now',
        now <= now' ->
        get_share st db now tok =
          (st, db, reply 404 (JsonError "Share link not found or expired")) ->
        get_share st db now' tok =
          (st, db, reply 404 (JsonError "Share link not found or expired"))).
Proof.
  intros Hfk.
  assert (forall t,
             get_share st db t tok =
               (st, db, reply 404 (JsonError "Share link not found or expired"))
             <-> forall l v, In (l, v) (share_join db) -> token l = tok ->
                             datetime (expiry_timestamp l) <= datetime t) as Hiff.
  { intros t. unfold get_share. rewrite <- (select_share_none db t tok).
    destruct (select_share db t tok) as [[l v]|]; split;
      (discriminate || reflexivity). }
  split; [|split; [|split]].
  - rewrite Hiff. split.
    + intros Hall l Hl Htok.
      destruct (get_video_some_in db (video_id l) (Hfk l Hl)) as (v & Hv & Hid).
      apply (Hall l v); [|assumption]. apply in_share_join. auto.
    + intros Hall l v Hin Htok. apply in_share_join in Hin as (Hl & _).
      now apply Hall.
  - intros (l & Hl & Htok & Hlt). unfold get_share.
    destruct (select_share db now tok) as [[l' v]|] eqn:Hsel.
    + apply select_share_some in Hsel as (Hl' & Hv & Hid & Htok' & Hlt').
      exists l', v. repeat split; assumption.
    + exfalso.
      destruct (get_video_some_in db (video_id l) (Hfk l Hl)) as (v & Hv & Hid).
      pose proof (proj1 (select_share_none db now tok) Hsel l v) as Hno.
      rewrite in_share_join in Hno. specialize (Hno (conj Hl (conj Hv Hid)) Htok).
      lia.
  - intros l _ _. split.
    + apply datetime_mono.
    + intros Hle. unfold datetime.
      assert ((now + 1000) / 1000 <= expiry_timestamp l / 1000) as H
        by now apply Z.div_le_mono.
      replace (now + 1000) with (now + 1 * 1000) in H by lia.
      rewrite Z.div_add in H by discriminate. lia.
  - intros now' Hle. rewrite !Hiff. intros Hall l v Hin Htok.
    pose proof (datetime_mono now now' Hle). specialize (Hall l v Hin Htok). lia.
Qed.

Lemma share_resolution_by_whole_seconds_witness :
  get_share three_byte_clip shared_db 1200 "7-k3x" =
    (three_byte_clip, shared_db,
     reply 404 (JsonError "Share link not found or expired"))
  /\ exists l v,
       In l (share_links shared_db) /\ token l = "7-k3x"
       /\ datetime 499 < datetime (expiry_timestamp l)
       /\ In v (videos shared_db) /\ v_id v = video_id l
       /\ get_share three_byte_clip shared_db 499 "7-k3x" =
            (three_byte_clip, shared_db,
             ok (FileStream "video/raw" (v_filename v) (v_filepath v))).
Proof.
  assert (forall l, In l (share_links shared_db) ->
                    get_video shared_db (video_id l) <> None) as Hfk.
  { intros l [<-|[]]. discriminate. }
  split.
  - apply (proj2 (proj1 (share_resolution_by_whole_seconds three_byte_clip
                           shared_db 1200 "7-k3x" Hfk))).
    intros l [<-|[]] _. vm_compute. discriminate.
  - apply (proj1 (proj2 (share_resolution_by_whole_seconds three_byte_clip
                           shared_db 499 "7-k3x" Hfk))).
    eexists. split; [left; reflexivity|]. split; reflexivity.
Defined.

(** The expiry is fixed when the link is issued and looked at only when the
    token is resolved: a link issued under a token that no older link
    carries is refused exactly from the second of its expiry on. *)
Lemma issued_link_lifetime (st : FS) (db : Db) (t_token t_date : Z)
    (rnd : string) (videoId : Z) (expiryHours : option Z) (video : Video) :
  get_video db videoId = Some video ->
  (forall l, In l (share_links db) -> token l <> show t_token +:+ "-" +:+ rnd) ->
  exists db',
    post_share st db t_token t_date rnd videoId expiryHours =
      (st, db',
       ok (JsonShare ("/videos/share/" +:+ show t_token +:+ "-" +:+ rnd)
             (t_date + default 24 expiryHours * HOUR_MS)))
    /\ forall now,
         get_share st db' now (show t_token +:+ "-" +:+ rnd) =
           (st, db', reply 404 (JsonError "Share link not found or expired"))
         <-> datetime (t_date + default 24 expiryHours * HOUR_MS) <= datetime now.
Proof.
  intros Hv Hfresh. unfold post_share. rewrite Hv.
  eexists. split; [reflexivity|]. intros now. unfold get_share.
  set (tok := show t_token +:+ "-" +:+ rnd) in *.
  set (db' := insert_share_link db videoId tok _).
  assert (select_share db' now tok = None
          <-> datetime (t_date + default 24 expiryHours * HOUR_MS) <= datetime now)
    as Hsel.
  { rewrite select_share_none. split.
    - intros Hall.
      destruct (get_video_some_in db videoId) as (v & Hin & Hid); [congruence|].
      apply (Hall {| video_id := videoId; token := tok;
                     expiry_timestamp := t_date + default 24 expiryHours * HOUR_MS |} v);
        [|reflexivity].
      apply in_share_join. simpl. rewrite in_app_iff. simpl. auto.
    - intros Hle l v Hin Htok. apply in_share_join in Hin as (Hl & _).
      simpl in Hl. apply in_app_iff in Hl as [Hl|[<-|[]]]; [|exact Hle].
      now apply Hfresh in Hl. }
  rewrite <- Hsel.
  destruct (select_share db' now tok) as [[l v]|]; split;
    (discriminate || reflexivity).
Qed.


(** * Further properties *)

(** ** Estimates of plain clips *)

Lemma plain_estimate (st : FS) (p : string) (input : list byte) :
  startsWith (path.basename p) "test-video" = false ->
  startsWith (path.basename p) "long-video" = false ->
  st !! p = Some input ->
  calculateRawVideoDuration st p =
    Return (inject_Z (Buffer.len input / 230400) / 30)%Q.
Proof.
  intros Ht Hl Hin. rewrite calculateRawVideoDuration_by_size by assumption.
  unfold fs.statSync_size. now rewrite Hin.
Qed.

(** ** What a trim keeps *)

Lemma trim_bytes_slice (input : list byte) (s e : Z) :
  0 <= s <= e -> e * 230400 <= Buffer.len input ->
  trim_bytes input s e =
    take (Z.to_nat ((e - s) * 230400)) (drop (Z.to_nat (s * 230400)) input).
Proof.
  intros Hse Hlen. unfold trim_bytes, Buffer.len in *.
  change FRAME_SIZE with 230400. rewrite resize_spec, length_drop.
  replace (Z.to_nat ((e - s) * 230400) - (length input - Z.to_nat (s * 230400)))%nat
    with 0%nat by lia.
  apply app_nil_r.
Qed.

Section PlainTrims.

Variable ffmpeg_run : FS -> FfmpegCommand -> string + FS.


(** A clip with neither fixture prefix whose file is shorter than one frame
    is estimated at 0 seconds whatever its encoding, so no trim of it with
    amounts that are not negative goes through: the trimmer throws before it
    reads the file or starts the transcoder. *)
Theorem short_clip_never_trims (st : FS) (now : Z) (p : string)
    (o : TrimOptions) (input : list byte) :
  startsWith (path.basename p) "test-video" = false ->
  startsWith (path.basename p) "long-video" = false ->
  st !! p = Some input ->
  Buffer.len input < 230400 ->
  (0 <= or_zero (trimStart o))%Q -> (0 <= or_zero (trimEnd o))%Q ->
  processVideo ffmpeg_run st now p o =
    Throw (Error
      "Error processing video: Invalid trim parameters: resulting video would be empty").
Proof.
  intros Ht Hl Hin Hlen Hts Hte.
  pose proof (plain_estimate st p input Ht Hl Hin) as Hd.
  rewrite (Z.div_small (Buffer.len input) 230400) in Hd
    by (pose proof (len_nonneg input); lia).
  unfold processVideo, processVideo_try. rewrite Hd. cbn [bind].
  assert (Qle_bool (inject_Z 0 / 30 - or_zero (trimStart o) - or_zero (trimEnd o)) 0
          = true) as ->; [|reflexivity].
  apply Qle_bool_iff.
  assert (inject_Z 0 / 30 == 0)%Q as -> by reflexivity. lra.
Qed.

End PlainTrims.


Lemma short_clip_never_trims_witness :
  processVideo no_ffmpeg three_byte_clip 7 "/up/17-3.raw" cut_first_second =
    Throw (Error
      "Error processing video: Invalid trim parameters: resulting video would be empty").
Proof.
  apply (short_clip_never_trims no_ffmpeg three_byte_clip 7 "/up/17-3.raw"
           cut_first_second [x01; x02; x03]);
    [reflexivity | reflexivity | reflexivity | reflexivity
    | vm_compute; discriminate | vm_compute; discriminate].
Defined.

(** ** A frame lost to rounding *)

Section LostFrame.

Variable ffmpeg_run : FS -> FfmpegCommand -> string + FS.

(** A trim that cuts nothing from the end can still drop the last frame.
    A clip of 123 whole frames is estimated at 123/30 seconds; the double
    nearest to that is a little less than 4.1 and thirty times it is
    floored to 122.  Cutting the first second of such a clip writes the
    frames 30 to 122, which are 92: what follows frame 30 in the source is
    the output and then one more frame, which is left out. *)
Theorem last_frame_can_be_lost (st : FS) (now : Z) (p : string)
    (input : list byte) :
  endsWith p ".raw" = true ->
  startsWith (path.basename p) "test-video" = false ->
  startsWith (path.basename p) "long-video" = false ->
  st !! p = Some input ->
  Buffer.len input = 123 * 230400 ->
  exists st' r out,
    processVideo ffmpeg_run st now p cut_first_second = Return (st', r)
    /\ st' !! outputPath r = Some out
    /\ out = take (Z.to_nat (92 * 230400)) (drop (Z.to_nat (30 * 230400)) input)
    /\ Buffer.len out = 92 * 230400
    /\ drop (Z.to_nat (30 * 230400)) input =
         out ++ drop (Z.to_nat (122 * 230400)) input
    /\ Buffer.len (drop (Z.to_nat (122 * 230400)) input) = 230400.
Proof.
  intros Hraw Ht Hl Hin Hlen.
  pose proof (plain_estimate st p input Ht Hl Hin) as Hd.
  rewrite Hlen, Z.div_mul in Hd by discriminate.
  assert (startFrameOf (or_zero (trimStart cut_first_second)) = 30) as Hs
    by (vm_compute; reflexivity).
  assert (endFrameOf (inject_Z 123 / 30) (or_zero (trimEnd cut_first_second)) = 122)
    as He by (vm_compute; reflexivity).
  eexists _, _, _. split; [|split; [|split; [reflexivity|split; [|split]]]].
  - unfold processVideo.
    rewrite (trim_raw_written st now p cut_first_second _ input Hraw Hd Hin);
      rewrite ?Hs, ?He;
      [| reflexivity | lia | rewrite Hlen; vm_compute; split; discriminate].
    rewrite trim_bytes_slice by (rewrite ?Hlen; lia).
    cbn [rethrow]. reflexivity.
  - cbn [outputPath]. apply lookup_insert_eq.
  - unfold Buffer.len in *. rewrite length_take, length_drop. lia.
  - assert (Z.to_nat (122 * 230400)
            = (Z.to_nat (30 * 230400) + Z.to_nat (92 * 230400))%nat) as ->
      by lia.
    rewrite <- drop_drop. symmetry. apply take_drop.
  - unfold Buffer.len in *. rewrite length_drop. lia.
Qed.

End LostFrame.

Lemma last_frame_can_be_lost_witness :
  exists st' r out,
    processVideo no_ffmpeg long_take_clip 7 "/up/17-8.raw" cut_first_second
      = Return (st', r)
    /\ st' !! outputPath r = Some out
    /\ out = take (Z.to_nat (92 * 230400))
               (drop (Z.to_nat (30 * 230400)) long_take)
    /\ Buffer.len out = 92 * 230400
    /\ drop (Z.to_nat (30 * 230400)) long_take =
         out ++ drop (Z.to_nat (122 * 230400)) long_take
    /\ Buffer.len (drop (Z.to_nat (122 * 230400)) long_take) = 230400.
Proof.
  apply (last_frame_can_be_lost no_ffmpeg long_take_clip 7 "/up/17-8.raw"
           long_take);
    [reflexivity | reflexivity | reflexivity | apply lookup_singleton_eq |].
  unfold Buffer.len, long_take. rewrite length_replicate.
  apply Z2Nat.id. discriminate.
Defined.

(** ** Merging, run by run *)

(** A merge of stored clips, step by step. *)
Lemma mergeVideos_run (st : FS) (now : Z) (first : string) (rest : list string)
    (contents : list (list byte)) :
  Forall2 (fun p c => st !! p = Some c) (first :: rest) contents ->
  exists D durs,
    mergeVideos st now (first :: rest) =
      Return (<[mergedPath first now := concat contents]> st,
              {| outputPath := mergedPath first now; duration := D |})
    /\ Forall2 (fun p d => calculateRawVideoDuration st p = Return d)
         (first :: rest) durs
    /\ (D == Qsum durs)%Q.
Proof.
  intros Hall.
  destruct (merge_first_pass_totals st _ contents Hall 0%Q 0)
    as (D & durs & Hfirst & Hdurs & Hsum).
  pose proof (merge_second_pass_fills st _ contents Hall []) as Hsecond.
  exists D, durs. split; [|split; [assumption | now rewrite Hsum, Qplus_0_l]].
  unfold mergeVideos. cbn [bind]. rewrite Hfirst. cbn [bind fst snd].
  rewrite Z.add_0_l, alloc_nonneg by apply len_nonneg.
  cbn [bind]. unfold Buffer.len at 1. rewrite Nat2Z.id.
  simpl app in Hsecond. change (Buffer.len []) with 0 in Hsecond.
  now rewrite Hsecond.
Qed.

Lemma merge_first_pass_missing (st : FS) (pre post : list string)
    (missing : string) (accD : Q) (accS : Z) :
  Forall (fun p => st !! p <> None) pre ->
  st !! missing = None ->
  merge_first_pass st (pre ++ missing :: post) accD accS =
    Throw (ENOENT "stat" missing).
Proof.
  intros Hpre Hmiss. revert accD accS.
  induction Hpre as [|p pre Hp _ IH]; intros accD accS; cbn [app merge_first_pass].
  - unfold calculateRawVideoDuration, fs.statSync_size. rewrite Hmiss.
    destruct (startsWith _ "test-video"); [reflexivity|].
    destruct (startsWith _ "long-video"); reflexivity.
  - destruct (st !! p) as [c|] eqn:Hc; [|congruence].
    destruct (estimate_of_stored st p c Hc) as [d ->]. cbn [bind].
    unfold fs.statSync_size at 1. rewrite Hc. cbn [bind]. apply IH.
Qed.

Lemma lookup_videos_all (db : Db) (ids : list Z) (vs found : list Video) :
  Forall2 (fun id v => get_video db id = Some v) ids vs ->
  lookup_videos db ids found = inr (found ++ vs).
Proof.
  intros Hall. revert found.
  induction Hall as [|id v ids vs Hv _ IH]; intros found; simpl.
  - now rewrite app_nil_r.
  - rewrite Hv, IH. now rewrite <- app_assoc.
Qed.

Lemma merged_basename (first : string) (now : Z) :
  path.basename (mergedPath first now) = "merged-" +:+ show now +:+ ".raw".
Proof.
  unfold mergedPath. apply basename_join.
  rewrite !has_sep_append, (proj1 (show_plain now)). reflexivity.
Qed.

(** When the file of one of the clips to merge is not stored, the merge
    throws the [ENOENT] of the first such path, in order, under the prefix
    of [mergeVideos]; the route answers with status 500 and that message,
    writes nothing and inserts nothing. *)
Theorem merge_stops_at_missing_file (st : FS) (now : Z) (pre post : list string)
    (missing : string) :
  Forall (fun p => st !! p <> None) pre ->
  st !! missing = None ->
  mergeVideos st now (pre ++ missing :: post) =
    Throw (Error ("Error merging videos: " +:+ message (ENOENT "stat" missing)))
  /\ forall (db : Db) (ids : list Z) (vs : list Video),
       2 <= Z.of_nat (length ids) ->
       Forall2 (fun id v => get_video db id = Some v) ids vs ->
       map v_filepath vs = pre ++ missing :: post ->
       post_merge st db now (Some ids) =
         (st, db,
          reply 500 (JsonError ("Error merging videos: "
                                +:+ message (ENOENT "stat" missing)))).
Proof.
  intros Hpre Hmiss.
  assert (mergeVideos st now (pre ++ missing :: post) =
          Throw (Error ("Error merging videos: "
                        +:+ message (ENOENT "stat" missing)))) as Hrun.
  { unfold mergeVideos.
    rewrite (merge_first_pass_missing st pre post missing 0%Q 0 Hpre Hmiss).
    now destruct pre. }
  split; [exact Hrun|].
  intros db ids vs Hlen Hvs Hpaths. unfold post_merge.
  apply Z.ltb_ge in Hlen. rewrite Hlen.
  rewrite (lookup_videos_all db ids vs [] Hvs). cbn [app].
  now rewrite Hpaths, Hrun.
Qed.

Lemma merge_stops_at_missing_file_witness :
  mergeVideos two_clips 99 (["/up/a.raw"] ++ "/up/gone.raw" :: []) =
    Throw (Error ("Error merging videos: "
                  +:+ message (ENOENT "stat" "/up/gone.raw")))
  /\ post_merge two_clips stale_db 99 (Some [1; 2]) =
       (two_clips, stale_db,
        reply 500 (JsonError ("Error merging videos: "
                              +:+ message (ENOENT "stat" "/up/gone.raw")))).
Proof.
  destruct (merge_stops_at_missing_file two_clips 99 ["/up/a.raw"] []
              "/up/gone.raw") as [Hrun Hroute];
    [constructor; [discriminate | constructor] | reflexivity |].
  split; [exact Hrun|].
  apply (Hroute stale_db [1; 2] (videos stale_db));
    [simpl; lia | repeat constructor | reflexivity].
Defined.

(** A merge request whose ids all have rows and whose files are all stored
    writes the concatenation under [merged-<timestamp>.raw] in the directory
    of the first clip, appends one row for it, whose size is that of the
    concatenation and whose duration is the sum of the clips' estimates,
    and answers with the new id. *)
Theorem merge_route_appends_row (st : FS) (db : Db) (now : Z) (ids : list Z)
    (v0 : Video) (vrest : list Video) (contents : list (list byte)) :
  2 <= Z.of_nat (length ids) ->
  Forall2 (fun id v => get_video db id = Some v) ids (v0 :: vrest) ->
  Forall2 (fun p c => st !! p = Some c) (map v_filepath (v0 :: vrest)) contents ->
  exists D durs,
    post_merge st db now (Some ids) =
      (<[mergedPath (v_filepath v0) now := concat contents]> st,
       {| videos := videos db ++
            [ {| v_id := next_rowid (videos db);
                 v_filename := "merged-" +:+ show now +:+ ".raw";
                 v_filepath := mergedPath (v_filepath v0) now;
                 v_size := Buffer.len (concat contents);
                 v_duration := D |} ];
          share_links := share_links db |},
       ok (JsonVideo (next_rowid (videos db))
             ("merged-" +:+ show now +:+ ".raw") D))
    /\ Forall2 (fun p d => calculateRawVideoDuration st p = Return d)
         (map v_filepath (v0 :: vrest)) durs
    /\ (D == Qsum durs)%Q.
Proof.
  intros Hlen Hvs Hfiles.
  destruct (mergeVideos_run st now (v_filepath v0) (map v_filepath vrest)
              contents Hfiles) as (D & durs & Hrun & Hdurs & Hsum).
  exists D, durs. split; [|split; assumption].
  unfold post_merge. apply Z.ltb_ge in Hlen. rewrite Hlen.
  rewrite (lookup_videos_all db ids (v0 :: vrest) [] Hvs). cbn [app].
  cbn [map] in Hrun |- *. rewrite Hrun. cbn [outputPath duration].
  unfold fs.statSync_size. rewrite lookup_insert_eq.
  unfold insert_video. now rewrite merged_basename.
Qed.

Lemma merge_route_appends_row_witness :
  exists D durs,
    post_merge two_clips two_clips_db 99 (Some [2; 1]) =
      (<[mergedPath "/up/b.raw" 99 := concat [[x03]; [x01; x02]]]> two_clips,
       {| videos := videos two_clips_db ++
            [ {| v_id := next_rowid (videos two_clips_db);
                 v_filename := "merged-" +:+ show 99 +:+ ".raw";
                 v_filepath := mergedPath "/up/b.raw" 99;
                 v_size := Buffer.len (concat [[x03]; [x01; x02]]);
                 v_duration := D |} ];
          share_links := share_links two_clips_db |},
       ok (JsonVideo (next_rowid (videos two_clips_db))
             ("merged-" +:+ show 99 +:+ ".raw") D))
    /\ Forall2 (fun p d => calculateRawVideoDuration two_clips p = Return d)
         ["/up/b.raw"; "/up/a.raw"] durs
    /\ (D == Qsum durs)%Q.
Proof.
  apply (merge_route_appends_row two_clips two_clips_db 99 [2; 1]
           {| v_id := 2; v_filename := "b.raw"; v_filepath := "/up/b.raw";
              v_size := 1; v_duration := (0 # 30)%Q |}
           [ {| v_id := 1; v_filename := "a.raw"; v_filepath := "/up/a.raw";
                v_size := 2; v_duration := (0 # 30)%Q |} ]
           [[x03]; [x01; x02]]);
    [simpl; lia | repeat constructor | repeat constructor].
Defined.

(** ** The trim route, when it goes through *)




Section TrimRouteSuccess.

Variable ffmpeg_run : FS -> FfmpegCommand -> string + FS.


End TrimRouteSuccess.


(** ** What no route does to the catalog *)

Lemma keeps_unchanged (st : FS) (db : Db) (r : Response) :
  keeps_catalog db (st, db, r).
Proof.
  split; [|reflexivity]. exists [], []. cbn. rewrite !app_nil_r. auto.
Qed.

Lemma keeps_inserted_video (st : FS) (db : Db) (filename filepath : string)
    (size : Z) (d : Q) (b : Body) :
  keeps_catalog db (st, fst (insert_video db filename filepath size d), ok b).
Proof.
  split; [|cbn; congruence]. eexists [_], []. cbn. rewrite app_nil_r. auto.
Qed.

Lemma keeps_inserted_link (st : FS) (db : Db) (videoId : Z) (tok : string)
    (expiry : Z) (b : Body) :
  keeps_catalog db (st, insert_share_link db videoId tok expiry, ok b).
Proof.
  split; [|cbn; congruence]. eexists [], [_]. cbn. rewrite app_nil_r. auto.
Qed.

(** No route removes or rewrites a row of [videos] or of [share_links]:
    whatever the request and whatever the transcoder does, the tables
    afterwards are the tables before with at most one row or link appended,
    and they are exactly the tables before unless the answer is 200. *)
Theorem routes_only_append (ffmpeg_run : FS -> FfmpegCommand -> string + FS)
    (st : FS) (db : Db) :
  (forall file, keeps_catalog db (post_upload st db file))
  /\ (forall now videoId ts te,
        keeps_catalog db (post_trim ffmpeg_run st db now videoId ts te))
  /\ (forall now videoIds, keeps_catalog db (post_merge st db now videoIds))
  /\ (forall t_token t_date rnd videoId expiryHours,
        keeps_catalog db
          (post_share st db t_token t_date rnd videoId expiryHours))
  /\ (forall now tok, keeps_catalog db (get_share st db now tok)).
Proof.
  split; [|split; [|split; [|split]]].
  - intros [f|]; unfold post_upload; [|apply keeps_unchanged].
    destruct (fs.statSync_size st (file_path f)); [|apply keeps_unchanged].
    destruct (calculateRawVideoDuration st (file_path f)) as [d|];
      [|apply keeps_unchanged].
    destruct (Q_ltb 300 d).
    + destruct (fs.unlinkSync st (file_path f)); [|apply keeps_unchanged].
      split; [|reflexivity]. exists [], []. cbn. rewrite !app_nil_r. auto.
    + apply keeps_inserted_video.
  - intros now videoId ts te. unfold post_trim.
    destruct (negb (truthy ts) && negb (truthy te)); [apply keeps_unchanged|].
    destruct (negative ts || negative te); [apply keeps_unchanged|].
    destruct (get_video db videoId) as [video|]; [|apply keeps_unchanged].
    destruct (processVideo ffmpeg_run st now (v_filepath video) _)
      as [[st' result]|]; [|apply keeps_unchanged].
    destruct (fs.statSync_size st' (outputPath result));
      [apply keeps_inserted_video|].
    split; [|reflexivity]. exists [], []. cbn. rewrite !app_nil_r. auto.
  - intros now [ids|]; unfold post_merge; [|apply keeps_unchanged].
    destruct (Z.of_nat (length ids) <? 2); [apply keeps_unchanged|].
    destruct (lookup_videos db ids []) as [id|vs]; [apply keeps_unchanged|].
    destruct (mergeVideos st now (map v_filepath vs)) as [[st' result]|];
      [|apply keeps_unchanged].
    destruct (fs.statSync_size st' (outputPath result));
      [apply keeps_inserted_video|].
    split; [|reflexivity]. exists [], []. cbn. rewrite !app_nil_r. auto.
  - intros t_token t_date rnd videoId expiryHours. unfold post_share.
    destruct (get_video db videoId); [apply keeps_inserted_link|].
    apply keeps_unchanged.
  - intros now tok. unfold get_share.
    destruct (select_share db now tok) as [[l v]|]; [|apply keeps_unchanged].
    split; [|reflexivity]. exists [], []. cbn. rewrite !app_nil_r. auto.
Qed.

(** ** Uploads as the storage names them *)

Lemma show_head (n : Z) :
  exists c r, show n = String c r /\ c <> "t"%char /\ c <> "l"%char.
Proof.
  unfold show, NilZero.string_of_int, NilZero.string_of_uint.
  destruct (Z.to_int n) as [d|d].
  - destruct d; simpl; eexists _, _; (split; [reflexivity | split; discriminate]).
  - eexists _, _. split; [reflexivity | split; discriminate].
Qed.

Lemma storage_filename_plain (now rnd : Z) (originalname : string) :
  startsWith (storage_filename now rnd originalname) "test-video" = false
  /\ startsWith (storage_filename now rnd originalname) "long-video" = false
  /\ path.has_sep (storage_filename now rnd originalname) = false.
Proof.
  unfold storage_filename. split; [|split].
  - destruct (show_head now) as (c & r & -> & Hc & _).
    rewrite append_cons. unfold startsWith. cbn [String.prefix].
    destruct (ascii_dec "t" c); [congruence | reflexivity].
  - destruct (show_head now) as (c & r & -> & _ & Hc).
    rewrite append_cons. unfold startsWith. cbn [String.prefix].
    destruct (ascii_dec "l" c); [congruence | reflexivity].
  - rewrite !has_sep_append, has_sep_extname.
    now rewrite (proj1 (show_plain now)), (proj1 (show_plain rnd)).
Qed.

(** A file that the disk storage has named and that is within the 1GB limit
    of the upload is never turned down for its duration: its name starts
    with the timestamp, so the estimate comes from its size, which gives at
    most 4660 frames, fewer than 300 seconds; the route leaves the file in
    place and appends its row. *)
Theorem stored_upload_is_catalogued (st : FS) (db : Db) (uploadDir : string)
    (now rnd : Z) (originalname : string) (content : list byte) :
  let f := stored_file uploadDir now rnd originalname in
  st !! file_path f = Some content ->
  Buffer.len content <= UPLOAD_LIMIT ->
  exists d,
    calculateRawVideoDuration st (file_path f) = Return d
    /\ (d * 30 <= 4660)%Q /\ (d < 300)%Q
    /\ post_upload st db (Some f) =
         (st,
          {| videos := videos db ++
               [ {| v_id := next_rowid (videos db);
                    v_filename := file_filename f; v_filepath := file_path f;
                    v_size := Buffer.len content; v_duration := d |} ];
             share_links := share_links db |},
          ok (JsonVideo (next_rowid (videos db)) (file_filename f) d)).
Proof.
  intros f Hin Hlimit.
  destruct (storage_filename_plain now rnd originalname) as (Ht & Hl & Hsep).
  assert (path.basename (file_path f) = storage_filename now rnd originalname)
    as Hbase by (apply basename_join; exact Hsep).
  assert (calculateRawVideoDuration st (file_path f) =
          Return (inject_Z (Buffer.len content / 230400) / 30)%Q) as Hd
    by (apply plain_estimate; [now rewrite Hbase | now rewrite Hbase | exact Hin]).
  assert (Buffer.len content / 230400 <= 4660) as Hframes
    by (apply Z.lt_succ_r, Z.div_lt_upper_bound;
        [reflexivity | unfold UPLOAD_LIMIT in Hlimit; lia]).
  assert (inject_Z (Buffer.len content / 230400) <= 4660)%Q as Hq
    by (change 4660%Q with (inject_Z 4660); now rewrite <- Zle_Qle).
  assert (inject_Z (Buffer.len content / 230400) / 30 * 30
          == inject_Z (Buffer.len content / 230400))%Q as Hmul by field.
  exists (inject_Z (Buffer.len content / 230400) / 30)%Q.
  split; [exact Hd|]. split; [lra|]. split; [lra|].
  unfold post_upload, fs.statSync_size. rewrite Hin, Hd.
  assert (Q_ltb 300 (inject_Z (Buffer.len content / 230400) / 30) = false) as ->
    by (apply Q_ltb_ge; lra).
  reflexivity.
Qed.

Lemma stored_upload_is_catalogued_witness :
  exists d,
    calculateRawVideoDuration three_byte_clip
      (file_path (stored_file "/up" 17 3 "clip.raw")) = Return d
    /\ (d * 30 <= 4660)%Q /\ (d < 300)%Q
    /\ post_upload three_byte_clip empty_db
         (Some (stored_file "/up" 17 3 "clip.raw")) =
         (three_byte_clip,
          {| videos := videos empty_db ++
               [ {| v_id := next_rowid (videos empty_db);
                    v_filename := file_filename (stored_file "/up" 17 3 "clip.raw");
                    v_filepath := file_path (stored_file "/up" 17 3 "clip.raw");
                    v_size := Buffer.len [x01; x02; x03]; v_duration := d |} ];
             share_links := share_links empty_db |},
          ok (JsonVideo (next_rowid (videos empty_db))
                (file_filename (stored_file "/up" 17 3 "clip.raw")) d)).
Proof.
  apply (stored_upload_is_catalogued three_byte_clip empty_db "/up" 17 3
           "clip.raw" [x01; x02; x03]);
    [reflexivity | vm_compute; discriminate].
Defined.

(** ** Issuing a link and resolving it *)

Lemma find_app_none {A : Type} (f : A -> bool) (l l' : list A) :
  List.find f l = None -> List.find f (l ++ l') = List.find f l'.
Proof.
  induction l as [|a l IH]; simpl; [reflexivity|].
  destruct (f a); [discriminate | exact IH].
Qed.

Lemma find_filter_head {A : Type} (f : A -> bool) (l : list A) (x : A) :
  List.find f l = Some x -> exists rest, List.filter f l = x :: rest.
Proof.
  induction l as [|a l IH]; simpl; [discriminate|].
  destruct (f a) eqn:Hf; [intros [= ->]; eauto | exact IH].
Qed.

Lemma share_join_insert (db : Db) (videoId : Z) (tok : string) (expiry : Z) :
  share_join (insert_share_link db videoId tok expiry) =
    share_join db ++
    map (pair {| video_id := videoId; token := tok; expiry_timestamp := expiry |})
      (List.filter (fun v => v_id v =? videoId) (videos db)).
Proof.
  unfold share_join. cbn [insert_share_link share_links videos].
  rewrite flat_map_app. cbn [flat_map video_id]. now rewrite app_nil_r.
Qed.

(** A link issued for a stored clip under a token that no older link carries
    is inserted with the expiry [t_date + expiryHours] hours (24 when none is
    given), and from then on resolving the token serves the file of that
    very clip as long as the second of the clock is before the second of
    the expiry, and is refused afterwards. *)
Theorem issue_then_resolve (st : FS) (db : Db) (t_token t_date : Z)
    (rnd : string) (videoId : Z) (expiryHours : option Z) (video : Video) :
  let tok := show t_token +:+ "-" +:+ rnd in
  let expiry := t_date + default 24 expiryHours * HOUR_MS in
  let db' := insert_share_link db videoId tok expiry in
  get_video db videoId = Some video ->
  (forall l, In l (share_links db) -> token l <> tok) ->
  post_share st db t_token t_date rnd videoId expiryHours =
    (st, db', ok (JsonShare ("/videos/share/" +:+ tok) expiry))
  /\ forall now,
       get_share st db' now tok =
         if datetime now <? datetime expiry
         then (st, db',
               ok (FileStream "video/raw" (v_filename video) (v_filepath video)))
         else (st, db', reply 404 (JsonError "Share link not found or expired")).
Proof.
  intros tok expiry db' Hv Hfresh. split.
  - unfold post_share. now rewrite Hv.
  - intros now. unfold get_share, select_share. subst db'.
    rewrite share_join_insert.
    destruct (find_filter_head _ _ _ Hv) as [rest ->].
    rewrite find_app_none.
    + cbn [map List.find fst token expiry_timestamp].
      rewrite String.eqb_refl. cbn [andb].
      destruct (datetime now <? datetime expiry) eqn:Hlt; [reflexivity|].
      assert (List.find
                (fun lv : ShareLink * Video =>
                   String.eqb (token (fst lv)) tok
                   && (datetime now <? datetime (expiry_timestamp (fst lv))))
                (map (pair {| video_id := videoId; token := tok;
                              expiry_timestamp := expiry |}) rest) = None) as ->;
        [|reflexivity].
      induction rest as [|v rest IH]; [reflexivity|].
      cbn [map List.find fst token expiry_timestamp].
      now rewrite String.eqb_refl, Hlt.
    + destruct (List.find _ (share_join db)) as [[l v]|] eqn:Hf; [|reflexivity].
      apply find_some in Hf as [Hin Hp]. apply in_share_join in Hin as (Hl & _).
      cbn [fst] in Hp. apply andb_true_iff in Hp as [Htok _].
      apply String.eqb_eq in Htok. now apply Hfresh in Hl.
Qed.

Lemma issue_then_resolve_witness :
  post_share three_byte_clip one_clip_db 7 1000 "k3x" 1 None =
    (three_byte_clip,
     insert_share_link one_clip_db 1 (show 7 +:+ "-" +:+ "k3x")
       (1000 + default 24 None * HOUR_MS),
     ok (JsonShare ("/videos/share/" +:+ show 7 +:+ "-" +:+ "k3x")
           (1000 + default 24 None * HOUR_MS)))
  /\ get_share three_byte_clip
       (insert_share_link one_clip_db 1 (show 7 +:+ "-" +:+ "k3x")
          (1000 + default 24 None * HOUR_MS))
       86400999 (show 7 +:+ "-" +:+ "k3x") =
       (three_byte_clip,
        insert_share_link one_clip_db 1 (show 7 +:+ "-" +:+ "k3x")
          (1000 + default 24 None * HOUR_MS),
        ok (FileStream "video/raw" "17-3.raw" "/up/17-3.raw")).
Proof.
  destruct (issue_then_resolve three_byte_clip one_clip_db 7 1000 "k3x" 1 None
              {| v_id := 1; v_filename := "17-3.raw"; v_filepath := "/up/17-3.raw";
                 v_size := 3; v_duration := (0 # 30)%Q |})
    as [Hissue Hresolve]; [reflexivity | intros l [] |].
  split; [exact Hissue|]. exact (Hresolve 86400999).
Defined.

(** ** Rows and the files behind them *)

Lemma mergeVideos_shape (st st' : FS) (now : Z) (paths : list string)
    (r : TransformResult) :
  mergeVideos st now paths = Return (st', r) ->
  exists first rest buf,
    paths = first :: rest
    /\ st' = <[mergedPath first now := buf]> st
    /\ outputPath r = mergedPath first now.
Proof.
  unfold mergeVideos. destruct paths as [|first rest]; [discriminate|].
  cbn [bind].
  destruct (merge_first_pass st (first :: rest) 0%Q 0) as [totals|];
    [|discriminate]. cbn [bind].
  destruct (Buffer.alloc (snd totals)) as [buf|]; [|discriminate]. cbn [bind].
  destruct (merge_second_pass st (first :: rest) buf 0) as [copied|];
    [|discriminate]. cbn [bind rethrow].
  intros [= <- <-]. now exists first, rest, (fst copied).
Qed.

Lemma lookup_videos_in (db : Db) (ids : list Z) (found vs : list Video) :
  lookup_videos db ids found = inr vs ->
  forall v, In v vs -> In v found \/ In v (videos db).
Proof.
  revert found. induction ids as [|id ids IH]; intros found; simpl.
  - intros [= <-]. auto.
  - destruct (get_video db id) as [video|] eqn:Hv; [|discriminate].
    intros Hl v Hin. destruct (IH _ Hl v Hin) as [Hf|Hd]; [|auto].
    apply in_app_iff in Hf as [Hf|[<-|[]]]; [auto|].
    right. unfold get_video in Hv. now apply find_some in Hv.
Qed.

Lemma get_video_in (db : Db) (id : Z) (v : Video) :
  get_video db id = Some v -> In v (videos db).
Proof. unfold get_video. intros H. now apply find_some in H. Qed.

(** Writing a file that no row points at, and recording it. *)
Lemma consistent_after_write (st : FS) (db : Db) (out name : string)
    (buf : list byte) (d : Q) :
  catalog_consistent st db ->
  (forall v, In v (videos db) -> v_filepath v <> out) ->
  catalog_consistent (<[out := buf]> st) db
  /\ catalog_consistent (<[out := buf]> st)
       (fst (insert_video db name out (Buffer.len buf) d)).
Proof.
  intros Hcons Hfresh.
  assert (catalog_consistent (<[out := buf]> st) db) as Hold.
  { intros v Hin. destruct (Hcons v Hin) as (c & Hc & Hs). exists c.
    split; [|exact Hs]. rewrite lookup_insert_ne; [exact Hc|].
    intros Heq. now apply (Hfresh v Hin). }
  split; [exact Hold|].
  intros v Hin. cbn [insert_video fst videos] in Hin.
  apply in_app_iff in Hin as [Hin|[<-|[]]]; [now apply Hold|].
  exists buf. cbn [v_filepath v_size]. split; [apply lookup_insert_eq | reflexivity].
Qed.

Section CatalogConsistency.

Variable ffmpeg_run : FS -> FfmpegCommand -> string + FS.

(** If every row points at a stored file of the recorded size, this is still
    so after an upload of a file that no row points at, after a trim of a
    raw clip and after a merge, provided no row points at the path the
    transform writes: the new row records the size of what was written, and
    the files of the other rows are not touched. *)
Theorem transforms_keep_rows_backed (st : FS) (db : Db) :
  catalog_consistent st db ->
  (forall f,
      (forall v, In v (videos db) -> v_filepath v <> file_path f) ->
      catalog_consistent (fst (fst (post_upload st db (Some f))))
        (snd (fst (post_upload st db (Some f)))))
  /\ (forall now videoId ts te,
        (forall video, get_video db videoId = Some video ->
                       endsWith (v_filepath video) ".raw" = true) ->
        (forall v v0, In v (videos db) -> In v0 (videos db) ->
                      v_filepath v <> trimmedPath (v_filepath v0) now) ->
        catalog_consistent
          (fst (fst (post_trim ffmpeg_run st db now videoId ts te)))
          (snd (fst (post_trim ffmpeg_run st db now videoId ts te))))
  /\ (forall now ids,
        (forall v v0, In v (videos db) -> In v0 (videos db) ->
                      v_filepath v <> mergedPath (v_filepath v0) now) ->
        catalog_consistent (fst (fst (post_merge st db now ids)))
          (snd (fst (post_merge st db now ids)))).
Proof.
  intros Hcons. split; [|split].
  - intros f Hfresh. unfold post_upload, fs.statSync_size, fs.unlinkSync.
    destruct (st !! file_path f) as [content|] eqn:Hc; [|exact Hcons].
    destruct (calculateRawVideoDuration st (file_path f)) as [d|]; [|exact Hcons].
    destruct (Q_ltb 300 d); cbn [fst snd].
    + intros v Hin. destruct (Hcons v Hin) as (c & Hv & Hs). exists c.
      split; [|exact Hs]. rewrite lookup_delete_ne; [exact Hv|].
      intros Heq. now apply (Hfresh v Hin).
    + intros v Hin. cbn [insert_video fst videos] in Hin.
      apply in_app_iff in Hin as [Hin|[<-|[]]]; [now apply Hcons|].
      exists content. now split.
  - intros now videoId ts te Hraw Hfresh. unfold post_trim.
    destruct (negb (truthy ts) && negb (truthy te)); [exact Hcons|].
    destruct (negative ts || negative te); [exact Hcons|].
    destruct (get_video db videoId) as [video|] eqn:Hv; [|exact Hcons].
    destruct (processVideo ffmpeg_run st now (v_filepath video) _)
      as [[st' result]|] eqn:Hrun; [|exact Hcons].
    destruct (trim_raw_shape ffmpeg_run st st' now (v_filepath video) _ result
                (Hraw video eq_refl) Hrun) as (buf & -> & ->).
    unfold fs.statSync_size. rewrite lookup_insert_eq.
    apply consistent_after_write; [exact Hcons|].
    intros v Hin. apply Hfresh; [exact Hin | now apply (get_video_in db videoId)].
  - intros now [ids|] Hfresh; unfold post_merge; [|exact Hcons].
    destruct (Z.of_nat (length ids) <? 2); [exact Hcons|].
    destruct (lookup_videos db ids []) as [id|vs] eqn:Hvs; [exact Hcons|].
    destruct (mergeVideos st now (map v_filepath vs)) as [[st' result]|] eqn:Hrun;
      [|exact Hcons].
    destruct (mergeVideos_shape st st' now _ result Hrun)
      as (first & rest & buf & Hpaths & -> & ->).
    unfold fs.statSync_size. rewrite lookup_insert_eq.
    apply consistent_after_write; [exact Hcons|].
    destruct vs as [|v0 vs']; [discriminate|]. injection Hpaths as <- _.
    intros v Hin. apply Hfresh; [exact Hin|].
    destruct (lookup_videos_in db ids [] _ Hvs v0) as [[]|H0]; [now left | exact H0].
Qed.

End CatalogConsistency.

Lemma transforms_keep_rows_backed_witness :
  catalog_consistent
    (fst (fst (post_merge three_byte_clip one_clip_db 99 (Some [1; 1]))))
    (snd (fst (post_merge three_byte_clip one_clip_db 99 (Some [1; 1])))).
Proof.
  assert (catalog_consistent three_byte_clip one_clip_db) as Hcons.
  { intros v [<-|[]]. exists [x01; x02; x03]. split; reflexivity. }
  apply (proj2 (proj2 (transforms_keep_rows_backed no_ffmpeg three_byte_clip
                         one_clip_db Hcons))).
  intros v v0 [<-|[]] [<-|[]] H. vm_compute in H. discriminate H.
Defined.

(** ** Cutting a clip in two and merging the halves *)


Section SplitAndMerge.

Variable ffmpeg_run : FS -> FfmpegCommand -> string + FS.


End SplitAndMerge.


(** ** The output of a trim and its source *)



Section Delegation.

Variable ffmpeg_run : FS -> FfmpegCommand -> string + FS.


End Delegation.

